(** * Robin: the recursive-descent parser and the keyword classifier

    A shallow embedding of [src/robin/parser.py] and [src/lexer/tokens.py].

    Python objects are modelled as follows.
    - A token is the named tuple [Token(type, value, line, column)].  Its
      [type] is always a [str]; its [value] is a [str] for most tokens and
      an [int] for an indentation token, so values are a small sum type.
    - The parser object is a record of its three attributes ([lexer],
      [indent], [current_token]); every method is a function in a state and
      exception monad over that record.
    - Python exceptions are a sum type; [while] loops and the recursion of
      the grammar are driven by a fuel argument, because the source does not
      terminate on every input.
    - The parser reads three names of the module [tokens] that the module
      does not provide: [tokens.EOF], which is not defined, and
      [tokens.delimiter['(']] and [tokens.keywords.IF], a lookup by key and
      an attribute of a frozenset.  Python raises [AttributeError] and
      [TypeError] there, and so does the model.
    - Calls to [print] and to the logging decorator [log_def] leave the
      parser state and the result untouched and are not modelled. *)

From Stdlib Require Import String Ascii ZArith List Bool Lia.
Import ListNotations.

Set Implicit Arguments.
#[local] Set Warnings "-register-all,-non-full-mutual".

Open Scope string_scope.
Open Scope Z_scope.

(** ** Python values and exceptions *)

(** The values a token carries: a [str] or an [int]. *)
Inductive pyval : Type :=
| VStr (s : string)
| VInt (z : Z).

Coercion VStr : string >-> pyval.

(** Python [==] on these values: a [str] never equals an [int]. *)
Definition py_eq (a b : pyval) : bool :=
  match a, b with
  | VStr s, VStr t => String.eqb s t
  | VInt x, VInt y => Z.eqb x y
  | _, _ => false
  end.

(** Python truthiness ([if type:] in [Parser.error]). *)
Definition truthy (v : pyval) : bool :=
  match v with
  | VStr s => negb (String.eqb s "")
  | VInt z => negb (Z.eqb z 0)
  end.

(** [s in t] for two [str]: [s] occurs in [t] as a contiguous run; the empty
    string occurs in every string. *)
Fixpoint is_substring (s t : string) : bool :=
  String.prefix s t ||
  match t with
  | EmptyString => false
  | String _ t' => is_substring s t'
  end.

(** [x in S] for a frozenset (or list, or tuple) of [str]. *)
Definition str_mem (s : string) (l : list string) : bool :=
  existsb (String.eqb s) l.

(** ** src/lexer/tokens.py *)

Module tokens.

Definition ENDMARKER : string := "endmarker".
Definition NEWLINE : string := "newline".
Definition INDENT : string := "indent".
Definition DEDENT : string := "dedent".
Definition ID : string := "id".
Definition KEYWORDS : string := "keywords".
Definition NUMBER : string := "number".
Definition STRING : string := "string".
Definition BYTES : string := "bytes".
Definition OPERATOR : string := "operator".
Definition DELIMITER : string := "delimiter".

Definition operator : list string :=
  [ "+"; "-"; "*"; "**"; "/"; "//"; "%";
    "<<"; ">>"; "&"; "|"; "^"; "~";
    "<"; ">"; "<="; ">="; "=="; "!=" ].

Definition delimiter : list string :=
  [ "("; ")"; "["; "]"; "{"; "}";
    ","; ":"; "."; ";"; "@"; "="; "->";
    "+="; "-="; "*="; "/="; "//="; "%=";
    "&="; "|="; "^="; ">>="; "<<="; "**=" ].

Definition keywords : list string :=
  [ "False"; "class"; "finally"; "is"; "return";
    "None"; "continue"; "for"; "lambda"; "try";
    "True"; "def"; "from"; "nonlocal"; "while";
    "and"; "del"; "global"; "not"; "with";
    "as"; "elif"; "if"; "or"; "yield";
    "assert"; "else"; "import"; "pass";
    "break"; "except"; "in"; "raise" ].

(** [Token = namedtuple('Token', ['type', 'value', 'line', 'column'])] *)
Record Token : Type := mkToken
  { type : string; value : pyval; line : Z; column : Z }.

(** What a call of [iskeyword] does: return a [bool] or raise [KeyError]
    with the offending string. *)
Inductive kwresult : Type :=
| KwReturn (b : bool)
| KwKeyError (s : string).

Section Iskeyword.

(** [keyword.kwlist] of the Python standard library that runs the code:
    the reserved words of that interpreter. *)
Variable kwlist : list string.

Definition iskeyword (s : string) : kwresult :=
  if str_mem s keywords then KwReturn true
  else if str_mem s kwlist then KwKeyError s
  else KwReturn false.

End Iskeyword.

End tokens.

Import tokens.

(** ** The tokens of the lexer

    Modelled from the spec: the tokens that [PeekTokenLexer] hands to the
    parser.  The parser matches an operator, a delimiter or a keyword by
    comparing the token's [type] with its spelling ([self.eat('(')],
    [self.eat('if')]), so such a token carries its spelling as [type] and
    as [value]; a number, an identifier, a newline and an indentation token
    carry the kinds of tokens.py. *)
Definition symbol (s : string) (l c : Z) : Token := mkToken s (VStr s) l c.
Definition number (v : pyval) (l c : Z) : Token := mkToken NUMBER v l c.
Definition identifier (s : string) (l c : Z) : Token := mkToken ID (VStr s) l c.
Definition newline (l c : Z) : Token :=
  mkToken NEWLINE (VStr (String (ascii_of_nat 10) EmptyString)) l c.
Definition indentation (n : Z) (l c : Z) : Token := mkToken INDENT (VInt n) l c.

(** A token on which every loop of the expression grammar stops: its value
    is a [str] that is neither found in ['*/'] or ['+-'] nor a member of
    [tokens.operator]. *)
Definition ends_expression (t : Token) : bool :=
  match value t with
  | VStr s =>
      negb (is_substring s "*/") && negb (is_substring s "+-")
      && negb (str_mem s operator)
  | VInt _ => false
  end.

(** ** The AST nodes built by the parser (robin/ast.py)

    Each constructor takes the arguments of the corresponding call in
    parser.py, in the order of the positional call [ast.If(condition, token,
    right_block, wrong_block)].  [PyNone] is Python's [None], which a
    method returns when it falls off its end. *)
Inductive ast : Type :=
| PyNone
| Program (block : ast)
| Block (children : list ast)
| FunctionDef (name : ast) (params : list ast) (block : ast)
| If (condition : ast) (token : Token) (right_block wrong_block : ast)
| While (condition : ast) (token : Token) (block : ast)
| Assign (left : ast) (token : Token) (right : ast)
| FunctionCall (name : ast) (args : list ast)
| Var (token : Token)
| Op (left : ast) (op : Token) (right : ast)
| UnaryOp (op : Token) (expr : ast)
| Num (token : Token)
| RegularStr (token : Token)
| Bool (token : Token)
| EmptyOp.

(** ** Shapes of trees *)

(** The nodes of a tree: the node itself and the nodes of its children. *)
Fixpoint nodes (a : ast) : list ast :=
  a ::
  match a with
  | PyNone | EmptyOp | Var _ | Num _ | RegularStr _ | Bool _ => []
  | Program b => nodes b
  | Block children => flat_map nodes children
  | FunctionDef name params b =>
      nodes name ++ flat_map nodes params ++ nodes b
  | If c _ r w => nodes c ++ nodes r ++ nodes w
  | While c _ b => nodes c ++ nodes b
  | Assign l _ r => nodes l ++ nodes r
  | FunctionCall name args => nodes name ++ flat_map nodes args
  | Op l _ r => nodes l ++ nodes r
  | UnaryOp _ e => nodes e
  end.

(** A node that only a dispatched statement brings into a tree: an [If]
    node, or a [Block] that has a child. *)
Definition dispatched (a : ast) : bool :=
  match a with
  | If _ _ _ _ | Block (_ :: _) => true
  | _ => false
  end.

(** [bare a]: no node of the tree, at any depth, is an [If] node or a
    [Block] with a child. *)
Fixpoint bare (a : ast) : bool :=
  match a with
  | PyNone | EmptyOp | Var _ | Num _ | RegularStr _ | Bool _ => true
  | Program b => bare b
  | Block children =>
      match children with
      | [] => true
      | _ :: _ => false
      end
  | FunctionDef name params b =>
      bare name && forallb bare params && bare b
  | If _ _ _ _ => false
  | While c _ b => bare c && bare b
  | Assign l _ r => bare l && bare r
  | FunctionCall name args => bare name && forallb bare args
  | Op l _ r => bare l && bare r
  | UnaryOp _ e => bare e
  end.

(** ** Sample inputs

    A configuration and token streams on which the statements below are
    instantiated: four columns per nesting level, an end marker of value
    ["EOF"], and the reserved words of Python 3.7, which adds [async] and
    [await] to the 33 words of [keywords]. *)
Definition sample_INDENT_LENGTH : Z := 4.
Definition sample_end_marker : Token := mkToken ENDMARKER (VStr "EOF") 0 0.

Definition py37_kwlist : list string :=
  [ "False"; "None"; "True"; "and"; "as"; "assert"; "async"; "await";
    "break"; "class"; "continue"; "def"; "del"; "elif"; "else"; "except";
    "finally"; "for"; "from"; "global"; "if"; "import"; "in"; "is";
    "lambda"; "nonlocal"; "not"; "or"; "pass"; "raise"; "return"; "try";
    "while"; "with"; "yield" ].

(** [if 1:] / [x = 1] / [elif 2:] / [x = 2] / [else:] / [x = 3] *)
Definition if_elif_else_tokens : list Token :=
  [ symbol "if" 1 0; number (VInt 1) 1 3; symbol ":" 1 4; newline 1 5;
    indentation 4 2 0; identifier "x" 2 4; symbol "=" 2 6;
    number (VInt 1) 2 8; newline 2 9;
    symbol "elif" 3 0; number (VInt 2) 3 5; symbol ":" 3 6; newline 3 7;
    indentation 4 4 0; identifier "x" 4 4; symbol "=" 4 6;
    number (VInt 2) 4 8; newline 4 9;
    symbol "else" 5 0; symbol ":" 5 4; newline 5 5;
    indentation 4 6 0; identifier "x" 6 4; symbol "=" 6 6;
    number (VInt 3) 6 8; newline 6 9 ].

(** The same three lines with empty bodies: [if 1:] / [elif 2:] /
    [else:]. *)
Definition if_elif_else_flat_tokens : list Token :=
  [ symbol "if" 1 0; number (VInt 1) 1 3; symbol ":" 1 4; newline 1 5;
    symbol "elif" 2 0; number (VInt 2) 2 5; symbol ":" 2 6; newline 2 7;
    symbol "else" 3 0; symbol ":" 3 4; newline 3 5 ].


(** [if 1] followed by a newline: the [':'] is missing. *)
Definition if_without_colon_tokens : list Token :=
  [ symbol "if" 1 0; number (VInt 1) 1 3; newline 1 4 ].

(** ** The parser object and its monad *)

Record Parser : Type := mkParser
  { lexer : list Token;      (* the tokens the lexer has not handed out yet *)
    indent : Z;
    current_token : Token }.

Inductive exn : Type :=
| PyException (unknown : Token) (need : option pyval)
    (* [Parser.error]: 'Invalid syntax. Unknown identity <token>. ' and,
       when an expected type was given, 'Need Token <type>, None' *)
| IndentationError
| TypeError
| AttributeError.

Inductive outcome (A : Type) : Type :=
| Ret (a : A) (p : Parser)
| Raise (e : exn)
| OutOfFuel.

Arguments Raise {A} e.
Arguments OutOfFuel {A}.

Definition M (A : Type) : Type := Parser -> outcome A.

Definition ret {A} (a : A) : M A := fun p => Ret a p.

Definition bind {A B} (m : M A) (k : A -> M B) : M B :=
  fun p =>
    match m p with
    | Ret a p' => k a p'
    | Raise e => Raise e
    | OutOfFuel => OutOfFuel
    end.

Definition raise {A} (e : exn) : M A := fun _ => Raise e.
Definition out_of_fuel {A} : M A := fun _ => OutOfFuel.

Notation "x <- m ;; k" := (bind m (fun x => k))
  (at level 61, m at next level, right associativity).
Notation "m ;; k" := (bind m (fun _ => k))
  (at level 61, right associativity).

(** [self.current_token] *)
Definition current : M Token := fun p => Ret (current_token p) p.

(** [self.indent] *)
Definition get_indent : M Z := fun p => Ret (indent p) p.

(** [self.indent += d] *)
Definition add_indent (d : Z) : M unit :=
  fun p => Ret tt (mkParser (lexer p) (indent p + d) (current_token p)).

(** [tokens.EOF]: tokens.py defines [ENDMARKER] and no [EOF], so the read
    raises [AttributeError]. *)
Definition tokens_EOF : M pyval := raise AttributeError.

(** [tokens.delimiter[k]]: [delimiter] is a frozenset, which cannot be
    subscripted, so the read raises [TypeError]. *)
Definition delimiter_getitem (k : string) : M pyval := raise TypeError.

(** [tokens.keywords.NAME]: [keywords] is a frozenset, which has no such
    attribute, so the read raises [AttributeError]. *)
Definition keywords_getattr (name : string) : M pyval := raise AttributeError.

(** ** src/robin/parser.py *)

Section Parser.

(** [robin.settings.INDENT_LENGTH]: the number of columns of one nesting
    level.  The settings module is a configuration constant of the
    repository; the parser is verified for every value of it. *)
Variable INDENT_LENGTH : Z.

(** Modelled from the spec: the synthetic end-marker token that
    [PeekTokenLexer.next_token] returns forever after the true end of
    input. *)
Variable end_marker : Token.

(** Modelled from the spec: [PeekTokenLexer.next_token] returns the next
    token and advances the stream, and the end marker once the stream is
    exhausted. *)
Definition next_token (l : list Token) : Token * list Token :=
  match l with
  | [] => (end_marker, [])
  | t :: l' => (t, l')
  end.

(** Modelled from the spec: [PeekTokenLexer.peek_token] returns the next
    token without consuming it, or [None] if no further token exists. *)
Definition peek_token (l : list Token) : option Token :=
  match l with
  | [] => None
  | t :: _ => Some t
  end.

(** [Parser.__init__] *)
Definition Parser_init (lx : list Token) : Parser :=
  let (t, l') := next_token lx in mkParser l' 0 t.

(** [self.current_token = self.lexer.next_token()] *)
Definition advance : M unit :=
  fun p =>
    let (t, l') := next_token (lexer p) in
    Ret tt (mkParser l' (indent p) t).

(** [self.lexer.peek_token()] *)
Definition peek : M (option Token) :=
  fun p => Ret (peek_token (lexer p)) p.

(** [Parser.error] *)
Definition error {A} (ty : pyval) : M A :=
  fun p =>
    Raise (PyException (current_token p)
                       (if truthy ty then Some ty else None)).

(** [Parser.eat] *)
Definition eat (ty : pyval) : M unit :=
  tok <- current ;;
  if py_eq (VStr (type tok)) ty then advance else error ty.

(** [Parser.check_indent] *)
Definition check_indent (p : Parser) : bool :=
  if indent p =? 0 then true
  else if negb (String.eqb (type (current_token p)) INDENT) then false
  else if negb (py_eq (VInt (indent p * INDENT_LENGTH))
                      (value (current_token p))) then false
  else true.

(** [Parser.eat_indent] *)
Definition eat_indent : M unit :=
  ind <- get_indent ;;
  tok <- current ;;
  if String.eqb (type tok) INDENT then
    if negb (py_eq (VInt (ind * INDENT_LENGTH)) (value tok))
    then raise IndentationError
    else eat (VStr INDENT)
  else ret tt.

(** [Parser.empty] *)
Definition empty : M ast :=
  tok <- current ;;
  (if String.eqb (type tok) NEWLINE then eat (VStr NEWLINE) else ret tt) ;;
  ret EmptyOp.

(** [Parser.variable] *)
Definition variable : M ast :=
  vartoken <- current ;;
  eat (VStr ID) ;;
  ret (Var vartoken).

(** [v in hay] for a [str] haystack: a [TypeError] unless [v] is a
    [str]. *)
Definition in_str (v : pyval) (hay : string) : M bool :=
  match v with
  | VStr s => ret (is_substring s hay)
  | VInt _ => raise TypeError
  end.

(** [v in tokens.operator] *)
Definition in_operator (v : pyval) : bool :=
  match v with
  | VStr s => str_mem s operator
  | VInt _ => false
  end.

(** The grammar.  One unit of fuel is spent per call and per loop
    iteration; the loops of [block], [argument_list], [expr],
    [term_plus_minus] and [term_mul_div] are the functions [*_loop]. *)
Fixpoint program (fuel : nat) : M ast :=
  match fuel with
  | O => out_of_fuel
  | S n => b <- block n ;; ret (Program b)
  end

with function_def (fuel : nat) : M ast :=
  match fuel with
  | O => out_of_fuel
  | S n =>
      eat "def" ;;
      name <- variable ;;
      params <- argument_list n ;;
      eat ":" ;;
      eat NEWLINE ;;
      add_indent 1 ;;
      blk <- block n ;;
      add_indent (-1) ;;
      ret (FunctionDef name params blk)
  end

with block (fuel : nat) : M ast :=
  match fuel with
  | O => out_of_fuel
  | S n => result <- block_loop n [] ;; ret (Block result)
  end

with block_loop (fuel : nat) (result : list ast) : M (list ast) :=
  match fuel with
  | O => out_of_fuel
  | S n =>
      fun p =>
        if check_indent p
        then (tok <- current ;;
              eof <- tokens_EOF ;;
              if negb (py_eq (value tok) eof)
              then eat_indent ;;
                   st <- statement n ;;
                   block_loop n (result ++ [st])
              else ret result) p
        else Ret result p
  end

with statement (fuel : nat) : M ast :=
  match fuel with
  | O => out_of_fuel
  | S n =>
      tok <- current ;;
      if String.eqb (type tok) ID then
        pk <- peek ;;
        match pk with
        | None => empty
        | Some nxt =>
            lparen <- delimiter_getitem "(" ;;
            if py_eq (value nxt) lparen then
              st <- function_call n ;;
              eat NEWLINE ;;
              ret st
            else
              assign <- delimiter_getitem "=" ;;
              if py_eq (value nxt) assign then assign_statement n
              else empty
        end
      else
        kw_if <- keywords_getattr "IF" ;;
        if py_eq (value tok) kw_if then if_statement n
        else
          kw_while <- keywords_getattr "WHILE" ;;
          if py_eq (value tok) kw_while then while_statement n
          else
            kw_def <- keywords_getattr "DEF" ;;
            if py_eq (value tok) kw_def then function_def n
            else empty
  end

with function_call (fuel : nat) : M ast :=
  match fuel with
  | O => out_of_fuel
  | S n =>
      fun_name <- variable ;;
      arg_list <- argument_list n ;;
      ret (FunctionCall fun_name arg_list)
  end

with argument_list (fuel : nat) : M (list ast) :=
  match fuel with
  | O => out_of_fuel
  | S n =>
      eat "(" ;;
      tok <- current ;;
      args <- (if negb (py_eq (value tok) ")") then
                 a <- expr n ;;
                 argument_loop n [a]
               else ret []) ;;
      eat ")" ;;
      ret args
  end

with argument_loop (fuel : nat) (args : list ast) : M (list ast) :=
  match fuel with
  | O => out_of_fuel
  | S n =>
      tok <- current ;;
      if py_eq (value tok) "," then
        eat "," ;;
        a <- expr n ;;
        argument_loop n (args ++ [a])
      else ret args
  end

with while_statement (fuel : nat) : M ast :=
  match fuel with
  | O => out_of_fuel
  | S n =>
      token <- current ;;
      eat "while" ;;
      condition <- expr n ;;
      eat ":" ;;
      eat NEWLINE ;;
      add_indent 1 ;;
      right_block <- block n ;;
      add_indent (-1) ;;
      ret (While condition token right_block)
  end

with if_statement (fuel : nat) : M ast :=
  match fuel with
  | O => out_of_fuel
  | S n =>
      token <- current ;;
      eat "if" ;;
      condition <- expr n ;;
      eat ":" ;;
      eat NEWLINE ;;
      add_indent 1 ;;
      right_block <- block n ;;
      add_indent (-1) ;;
      wrong_block <- elif_statement n ;;
      ret (If condition token right_block wrong_block)
  end

with elif_statement (fuel : nat) : M ast :=
  match fuel with
  | O => out_of_fuel
  | S n =>
      tok <- current ;;
      if py_eq (value tok) "elif" then
        eat "elif" ;;
        condition <- expr n ;;
        eat ":" ;;
        eat NEWLINE ;;
        add_indent 1 ;;
        right_block <- block n ;;
        add_indent (-1) ;;
        wrong_block <- elif_statement n ;;
        ret (If condition tok right_block wrong_block)
      else
        kw_else <- keywords_getattr "ELSE" ;;
        if py_eq (value tok) kw_else then
          eat "else" ;;
          eat ":" ;;
          eat NEWLINE ;;
          add_indent 1 ;;
          blk <- block n ;;
          add_indent (-1) ;;
          ret blk
        else empty
  end

with assign_statement (fuel : nat) : M ast :=
  match fuel with
  | O => out_of_fuel
  | S n =>
      left <- variable ;;
      token <- current ;;
      eat "=" ;;
      right <- expr n ;;
      eat NEWLINE ;;
      ret (Assign left token right)
  end

with expr (fuel : nat) : M ast :=
  match fuel with
  | O => out_of_fuel
  | S n => node <- term_plus_minus n ;; expr_loop n node
  end

with expr_loop (fuel : nat) (node : ast) : M ast :=
  match fuel with
  | O => out_of_fuel
  | S n =>
      op <- current ;;
      if in_operator (value op) then
        eat (value op) ;;
        right <- term_plus_minus n ;;
        expr_loop n (Op node op right)
      else ret node
  end

with term_plus_minus (fuel : nat) : M ast :=
  match fuel with
  | O => out_of_fuel
  | S n => node <- term_mul_div n ;; term_plus_minus_loop n node
  end

with term_plus_minus_loop (fuel : nat) (node : ast) : M ast :=
  match fuel with
  | O => out_of_fuel
  | S n =>
      op <- current ;;
      again <- in_str (value op) "+-" ;;
      if again then
        eat (VStr (type op)) ;;
        right <- term_mul_div n ;;
        term_plus_minus_loop n (Op node op right)
      else ret node
  end

with term_mul_div (fuel : nat) : M ast :=
  match fuel with
  | O => out_of_fuel
  | S n => node <- factor n ;; term_mul_div_loop n node
  end

with term_mul_div_loop (fuel : nat) (node : ast) : M ast :=
  match fuel with
  | O => out_of_fuel
  | S n =>
      op <- current ;;
      again <- in_str (value op) "*/" ;;
      if again then
        eat (value op) ;;
        right <- factor n ;;
        term_mul_div_loop n (Op node op right)
      else ret node
  end

with factor (fuel : nat) : M ast :=
  match fuel with
  | O => out_of_fuel
  | S n =>
      tok <- current ;;
      if is_substring (type tok) "+-" then
        if String.eqb (type tok) "+" then
          eat "+" ;;
          e <- factor n ;;
          ret (UnaryOp tok e)
        else if py_eq (value tok) "-" then
          eat "-" ;;
          e <- factor n ;;
          ret (UnaryOp tok e)
        else ret PyNone
      else if String.eqb (type tok) NUMBER then
        eat (VStr (type tok)) ;;
        ret (Num tok)
      else if String.eqb (type tok) ID then
        pk <- peek ;;
        match pk with
        | None => raise AttributeError
        | Some nxt =>
            if String.eqb (type nxt) "(" then function_call n
            else variable
        end
      else if String.eqb (type tok) "(" then
        eat "(" ;;
        e <- expr n ;;
        eat ")" ;;
        ret e
      else if str_mem (type tok) ["True"; "False"] then
        eat (VStr (type tok)) ;;
        ret (Bool tok)
      else if String.eqb (type tok) STRING then
        eat STRING ;;
        ret (RegularStr tok)
      else ret PyNone
  end.

(** [Parser.parse] *)
Definition parse (fuel : nat) : M ast := program fuel.

(** ** Predicates on runs

    [refines o1 o2]: the run [o1] either ran out of fuel or ended as
    [o2] did. *)
Definition refines {A} (o1 o2 : outcome A) : Prop :=
  o1 = OutOfFuel \/ o1 = o2.

Definition mrefines {A} (m1 m2 : M A) : Prop :=
  forall p, refines (m1 p) (m2 p).

(** With at least as much fuel, every function of the grammar refines
    itself. *)
Definition mono_at (n : nat) : Prop :=
  forall m, (n <= m)%nat ->
    mrefines (program n) (program m) /\
    mrefines (function_def n) (function_def m) /\
    mrefines (block n) (block m) /\
    (forall r, mrefines (block_loop n r) (block_loop m r)) /\
    mrefines (statement n) (statement m) /\
    mrefines (function_call n) (function_call m) /\
    mrefines (argument_list n) (argument_list m) /\
    (forall r, mrefines (argument_loop n r) (argument_loop m r)) /\
    mrefines (while_statement n) (while_statement m) /\
    mrefines (if_statement n) (if_statement m) /\
    mrefines (elif_statement n) (elif_statement m) /\
    mrefines (assign_statement n) (assign_statement m) /\
    mrefines (expr n) (expr m) /\
    (forall r, mrefines (expr_loop n r) (expr_loop m r)) /\
    mrefines (term_plus_minus n) (term_plus_minus m) /\
    (forall r, mrefines (term_plus_minus_loop n r) (term_plus_minus_loop m r)) /\
    mrefines (term_mul_div n) (term_mul_div m) /\
    (forall r, mrefines (term_mul_div_loop n r) (term_mul_div_loop m r)) /\
    mrefines (factor n) (factor m).

(** The state after [self.current_token = self.lexer.next_token()]. *)
Definition advanced (p : Parser) : Parser :=
  mkParser (snd (next_token (lexer p))) (indent p)
           (fst (next_token (lexer p))).

(** With fuel [n], what the functions of the grammar return: [block]
    returns the empty [Block] and only where [check_indent] fails,
    [statement] returns [EmptyOp] and consumes nothing, [if_statement] and
    [elif_statement] do not return, and the trees of the other functions
    are [bare]. *)
Definition bare_at (n : nat) : Prop :=
  (forall p a p', program n p = Ret a p' -> bare a = true) /\
  (forall p a p', function_def n p = Ret a p' -> bare a = true) /\
  (forall p a p', block n p = Ret a p' ->
                  a = Block [] /\ p' = p /\ check_indent p = false) /\
  (forall r p a p', block_loop n r p = Ret a p' ->
                    a = r /\ p' = p /\ check_indent p = false) /\
  (forall p a p', statement n p = Ret a p' -> a = EmptyOp /\ p' = p) /\
  (forall p a p', function_call n p = Ret a p' -> bare a = true) /\
  (forall p a p', argument_list n p = Ret a p' -> forallb bare a = true) /\
  (forall r p a p', forallb bare r = true ->
                    argument_loop n r p = Ret a p' ->
                    forallb bare a = true) /\
  (forall p a p', while_statement n p = Ret a p' -> bare a = true) /\
  (forall p a p', if_statement n p <> Ret a p') /\
  (forall p a p', elif_statement n p <> Ret a p') /\
  (forall p a p', assign_statement n p = Ret a p' -> bare a = true) /\
  (forall p a p', expr n p = Ret a p' -> bare a = true) /\
  (forall r p a p', bare r = true ->
                    expr_loop n r p = Ret a p' -> bare a = true) /\
  (forall p a p', term_plus_minus n p = Ret a p' -> bare a = true) /\
  (forall r p a p', bare r = true ->
                    term_plus_minus_loop n r p = Ret a p' ->
                    bare a = true) /\
  (forall p a p', term_mul_div n p = Ret a p' -> bare a = true) /\
  (forall r p a p', bare r = true ->
                    term_mul_div_loop n r p = Ret a p' -> bare a = true) /\
  (forall p a p', factor n p = Ret a p' -> bare a = true).

(** ** The cursor of the parser

    The position of the parser in the token stream is its current token
    together with the tokens the lexer has not handed out yet;
    [step_cursor] is one call of [next_token]. *)
Definition cursor (p : Parser) : Token * list Token :=
  (current_token p, lexer p).

Definition step_cursor (c : Token * list Token) : Token * list Token :=
  next_token (snd c).

(** [moves p p']: the cursor of [p'] is the cursor of [p] after some
    number of calls of [next_token]. *)
Definition moves (p p' : Parser) : Prop :=
  exists k, cursor p' = Nat.iter k step_cursor (cursor p).

(** With fuel [n], every function of the grammar that returns has restored
    the indentation counter and has only moved the cursor forward. *)
Definition framed (A : Type) (m : M A) : Prop :=
  forall p a p', m p = Ret a p' -> indent p' = indent p /\ moves p p'.

Definition frame_at (n : nat) : Prop :=
  framed (program n) /\
  framed (function_def n) /\
  framed (block n) /\
  (forall r, framed (block_loop n r)) /\
  framed (statement n) /\
  framed (function_call n) /\
  framed (argument_list n) /\
  (forall r, framed (argument_loop n r)) /\
  framed (while_statement n) /\
  framed (if_statement n) /\
  framed (elif_statement n) /\
  framed (assign_statement n) /\
  framed (expr n) /\
  (forall r, framed (expr_loop n r)) /\
  framed (term_plus_minus n) /\
  (forall r, framed (term_plus_minus_loop n r)) /\
  framed (term_mul_div n) /\
  (forall r, framed (term_mul_div_loop n r)) /\
  framed (factor n).

(** With fuel [n], no function of the grammar raises
    [IndentationError]. *)
Definition quiet (A : Type) (m : M A) : Prop :=
  forall p, m p <> Raise IndentationError.

Definition quiet_at (n : nat) : Prop :=
  quiet (program n) /\
  quiet (function_def n) /\
  quiet (block n) /\
  (forall r, quiet (block_loop n r)) /\
  quiet (statement n) /\
  quiet (function_call n) /\
  quiet (argument_list n) /\
  (forall r, quiet (argument_loop n r)) /\
  quiet (while_statement n) /\
  quiet (if_statement n) /\
  quiet (elif_statement n) /\
  quiet (assign_statement n) /\
  quiet (expr n) /\
  (forall r, quiet (expr_loop n r)) /\
  quiet (term_plus_minus n) /\
  (forall r, quiet (term_plus_minus_loop n r)) /\
  quiet (term_mul_div n) /\
  (forall r, quiet (term_mul_div_loop n r)) /\
  quiet (factor n).

(** ** Token streams for the chains of operators

    [parser_on i l]: the parser with indentation counter [i] whose current
    token is the first token of [l]; [Parser_init] is [parser_on 0]. *)
Definition parser_on (i : Z) (l : list Token) : Parser :=
  mkParser (snd (next_token l)) i (fst (next_token l)).

(** The tokens of a chain [op1 operand1 op2 operand2 ...] and the tree
    [fold_ops first ops]: the operators applied from the left. *)
Definition op_tokens (ops : list (Token * Token)) : list Token :=
  flat_map (fun x => [fst x; snd x]) ops.

Definition fold_ops (first : ast) (ops : list (Token * Token)) : ast :=
  fold_left (fun acc x => Op acc (fst x) (Num (snd x))) ops first.

Definition is_number (t : Token) : bool := String.eqb (type t) NUMBER.

(** Operator tokens as the three loops take them: [term_plus_minus] on a
    value found in ['+-'], whatever the type of the token;
    [term_mul_div] on a value found in ['*/'] that is also the type of the
    token; [expr] on a member of [tokens.operator] that is also the type
    of the token.  An operator of one level is one that the levels below
    leave alone. *)
Definition additive_op (t : Token) : bool :=
  match value t with
  | VStr s => is_substring s "+-" && negb (is_substring s "*/")
  | VInt _ => false
  end.

Definition multiplicative_op (t : Token) : bool :=
  match value t with
  | VStr s => is_substring s "*/" && String.eqb (type t) s
  | VInt _ => false
  end.

Definition comparison_op (t : Token) : bool :=
  match value t with
  | VStr s =>
      str_mem s operator && String.eqb (type t) s
      && negb (is_substring s "+-") && negb (is_substring s "*/")
  | VInt _ => false
  end.

(** A sign as [factor] takes it: a token of type ['+'], or a token of
    type ['-'] and value ['-']. *)
Definition sign_token (t : Token) : bool :=
  String.eqb (type t) "+"
  || (String.eqb (type t) "-" && py_eq (value t) (VStr "-")).

(** A comma as [argument_list] takes it. *)
Definition comma_token (t : Token) : bool :=
  String.eqb (type t) "," && py_eq (value t) (VStr ",").

(** * Properties *)

(** Induction on trees that reaches into the lists of children. *)
Lemma ast_nested_ind (P : ast -> Prop) :
  P PyNone ->
  (forall b, P b -> P (Program b)) ->
  (forall children, Forall P children -> P (Block children)) ->
  (forall name params b,
      P name -> Forall P params -> P b -> P (FunctionDef name params b)) ->
  (forall c t r w, P c -> P r -> P w -> P (If c t r w)) ->
  (forall c t b, P c -> P b -> P (While c t b)) ->
  (forall l t r, P l -> P r -> P (Assign l t r)) ->
  (forall name args, P name -> Forall P args -> P (FunctionCall name args)) ->
  (forall t, P (Var t)) ->
  (forall l o r, P l -> P r -> P (Op l o r)) ->
  (forall o e, P e -> P (UnaryOp o e)) ->
  (forall t, P (Num t)) ->
  (forall t, P (RegularStr t)) ->
  (forall t, P (Bool t)) ->
  P EmptyOp ->
  forall a, P a.
Proof.
  intros HNone HProgram HBlock HDef HIf HWhile HAssign HCall HVar HOp HUnary
         HNum HStr HBool HEmpty.
  fix IH 1.
  intros [| b | children | name params b | c t r w | c t b | l t r
          | name args | t | l o r | o e | t | t | t |].
  - exact HNone.
  - apply HProgram, IH.
  - apply HBlock. revert children. fix IHl 1.
    intros [| x l]; constructor; [apply IH | apply IHl].
  - apply HDef; [apply IH | | apply IH]. revert params. fix IHl 1.
    intros [| x l]; constructor; [apply IH | apply IHl].
  - apply HIf; apply IH.
  - apply HWhile; apply IH.
  - apply HAssign; apply IH.
  - apply HCall; [apply IH |]. revert args. fix IHl 1.
    intros [| x l]; constructor; [apply IH | apply IHl].
  - apply HVar.
  - apply HOp; apply IH.
  - apply HUnary, IH.
  - apply HNum.
  - apply HStr.
  - apply HBool.
  - exact HEmpty.
Qed.

(** ** More fuel never changes an answer *)

Lemma mrefines_refl {A} (m : M A) : mrefines m m.
Proof. intros p; right; reflexivity. Qed.

Lemma mrefines_fuel {A} (m : M A) : mrefines out_of_fuel m.
Proof. intros p; left; reflexivity. Qed.

Lemma mrefines_bind {A B} (m1 m2 : M A) (k1 k2 : A -> M B) :
  mrefines m1 m2 -> (forall a, mrefines (k1 a) (k2 a)) ->
  mrefines (bind m1 k1) (bind m2 k2).
Proof.
  intros Hm Hk p. unfold bind.
  destruct (Hm p) as [E | E]; rewrite E.
  - left; reflexivity.
  - destruct (m2 p); try (right; reflexivity). apply Hk.
Qed.

Lemma mrefines_if {A} (b : bool) (m1 m2 n1 n2 : M A) :
  mrefines m1 m2 -> mrefines n1 n2 ->
  mrefines (if b then m1 else n1) (if b then m2 else n2).
Proof. destruct b; auto. Qed.

Ltac mono :=
  repeat first
    [ apply mrefines_refl
    | apply mrefines_fuel
    | apply mrefines_bind
    | apply mrefines_if
    | match goal with
      | |- mrefines (match ?x with _ => _ end) _ => destruct x
      | |- refines (if ?b then _ else _) (if ?b then _ else _) => destruct b
      | |- refines ?o ?o => right; reflexivity
      | H : mrefines _ _ |- mrefines _ _ => exact H
      | H : forall r, mrefines _ _ |- mrefines _ _ => apply H
      | H : mrefines _ _ |- refines _ _ => apply H
      | H : forall r, mrefines _ _ |- refines _ _ => apply H
      end
    | intro ].

Lemma fuel_mono_all : forall n, mono_at n.
Proof.
  induction n as [| n IH]; intros m Hm.
  - repeat split; intros; apply mrefines_fuel.
  - destruct m as [| m]; [lia |].
    assert (Hle : (n <= m)%nat) by lia.
    destruct (IH m Hle) as
      (H1 & H2 & H3 & H4 & H5 & H6 & H7 & H8 & H9 & H10 & H11 & H12 & H13
         & H14 & H15 & H16 & H17 & H18 & H19).
    clear IH.
    repeat split; cbn [program function_def block block_loop statement
      function_call argument_list argument_loop while_statement
      if_statement elif_statement assign_statement expr expr_loop
      term_plus_minus term_plus_minus_loop term_mul_div term_mul_div_loop
      factor].
    all: mono.
Qed.

Lemma refines_ret {A} (o1 o2 : outcome A) a p :
  refines o1 o2 -> o1 = Ret a p -> o2 = Ret a p.
Proof. intros [E | E] H; congruence. Qed.

Lemma refines_raise {A} (o1 o2 : outcome A) e :
  refines o1 o2 -> o1 = Raise e -> o2 = Raise e.
Proof. intros [E | E] H; congruence. Qed.

Lemma expr_fuel n m p a p' :
  (n <= m)%nat -> expr n p = Ret a p' -> expr m p = Ret a p'.
Proof. intros L; apply refines_ret, (fuel_mono_all L). Qed.

Lemma factor_fuel n m p a p' :
  (n <= m)%nat -> factor n p = Ret a p' -> factor m p = Ret a p'.
Proof. intros L; apply refines_ret, (fuel_mono_all L). Qed.

Lemma assign_statement_fuel n m p a p' :
  (n <= m)%nat ->
  assign_statement n p = Ret a p' -> assign_statement m p = Ret a p'.
Proof. intros L; apply refines_ret, (fuel_mono_all L). Qed.

Lemma function_call_fuel n m p a p' :
  (n <= m)%nat ->
  function_call n p = Ret a p' -> function_call m p = Ret a p'.
Proof. intros L; apply refines_ret, (fuel_mono_all L). Qed.

Lemma while_statement_fuel n m p a p' :
  (n <= m)%nat ->
  while_statement n p = Ret a p' -> while_statement m p = Ret a p'.
Proof. intros L; apply refines_ret, (fuel_mono_all L). Qed.

Lemma while_statement_fuel_raise n m p e :
  (n <= m)%nat ->
  while_statement n p = Raise e -> while_statement m p = Raise e.
Proof. intros L; apply refines_raise, (fuel_mono_all L). Qed.

Lemma if_statement_fuel_raise n m p e :
  (n <= m)%nat -> if_statement n p = Raise e -> if_statement m p = Raise e.
Proof. intros L; apply refines_raise, (fuel_mono_all L). Qed.

Lemma program_fuel_raise n m p e :
  (n <= m)%nat -> program n p = Raise e -> program m p = Raise e.
Proof. intros L; apply refines_raise, (fuel_mono_all L). Qed.

(** ** Basic facts on values and membership *)

Lemma py_eq_true a b : py_eq a b = true <-> a = b.
Proof.
  destruct a, b; simpl; split; intros H; try discriminate.
  - apply String.eqb_eq in H; congruence.
  - inversion H; apply String.eqb_refl.
  - apply Z.eqb_eq in H; congruence.
  - inversion H; apply Z.eqb_refl.
Qed.

Lemma py_eq_false a b : py_eq a b = false <-> a <> b.
Proof.
  rewrite <- py_eq_true. destruct (py_eq a b); split; congruence.
Qed.

Lemma str_mem_In s l : str_mem s l = true <-> In s l.
Proof.
  unfold str_mem. rewrite existsb_exists. split.
  - intros (x & Hx & E). apply String.eqb_eq in E. congruence.
  - intros H. exists s. split; [assumption | apply String.eqb_refl].
Qed.

Lemma str_mem_not_In s l : str_mem s l = false <-> ~ In s l.
Proof.
  rewrite <- str_mem_In. destruct (str_mem s l); split; congruence.
Qed.

Lemma advance_eq p : advance p = Ret tt (advanced p).
Proof. unfold advance, advanced. destruct (next_token (lexer p)); reflexivity. Qed.

Lemma eat_ok (ty : string) p :
  type (current_token p) = ty -> eat (VStr ty) p = Ret tt (advanced p).
Proof.
  intros H. unfold eat, bind, current. simpl.
  rewrite H, String.eqb_refl. apply advance_eq.
Qed.

Lemma eat_fail (ty : string) p :
  type (current_token p) <> ty ->
  eat (VStr ty) p =
  Raise (PyException (current_token p)
                     (if truthy ty then Some (VStr ty) else None)).
Proof.
  intros H. unfold eat, bind, current. simpl.
  apply String.eqb_neq in H. rewrite H. reflexivity.
Qed.

(** ** The indentation tracker *)

(** C3: [check_indent] returns [True] exactly when the indentation
    counter is 0, or the current token is an indentation token whose value
    equals [indent * INDENT_LENGTH]; in every other state it returns
    [False]. *)
Theorem check_indent_spec (p : Parser) :
  (check_indent p = true <->
     indent p = 0 \/
     (type (current_token p) = INDENT /\
      value (current_token p) = VInt (indent p * INDENT_LENGTH)))
  /\
  (check_indent p = false <->
     ~ (indent p = 0 \/
        (type (current_token p) = INDENT /\
         value (current_token p) = VInt (indent p * INDENT_LENGTH)))).
Proof.
  assert (T : check_indent p = true <->
     indent p = 0 \/
     (type (current_token p) = INDENT /\
      value (current_token p) = VInt (indent p * INDENT_LENGTH))).
  { unfold check_indent.
    destruct (indent p =? 0) eqn:E0.
    - apply Z.eqb_eq in E0. split; auto.
    - apply Z.eqb_neq in E0.
      destruct (String.eqb (type (current_token p)) INDENT) eqn:Et;
        cbn [negb].
      + apply String.eqb_eq in Et.
        destruct (py_eq (VInt (indent p * INDENT_LENGTH))
                        (value (current_token p))) eqn:Ev; cbn [negb].
        * apply py_eq_true in Ev.
          split; [intros _; right; split; congruence | reflexivity].
        * apply py_eq_false in Ev. split; [discriminate |].
          intros [H | [_ H]]; [contradiction | congruence].
      + apply String.eqb_neq in Et. split; [discriminate |].
        intros [H | [H _]]; contradiction. }
  split; [exact T |].
  rewrite <- T. destruct (check_indent p); split; congruence.
Qed.

Lemma eat_indent_keeps p :
  type (current_token p) <> INDENT -> eat_indent p = Ret tt p.
Proof.
  intros Ht. apply String.eqb_neq in Ht.
  unfold eat_indent, bind, get_indent, current. rewrite Ht. reflexivity.
Qed.

(** C4: with an indentation token as the current token, [eat_indent]
    raises [IndentationError] when the token's value differs from
    [indent * INDENT_LENGTH] and consumes exactly that token when it
    matches; with any other current token it consumes nothing. *)
Theorem eat_indent_spec (p : Parser) :
  (type (current_token p) = INDENT ->
   value (current_token p) <> VInt (indent p * INDENT_LENGTH) ->
   eat_indent p = Raise IndentationError)
  /\
  (type (current_token p) = INDENT ->
   value (current_token p) = VInt (indent p * INDENT_LENGTH) ->
   eat_indent p = Ret tt (advanced p) /\
   current_token (advanced p) = fst (next_token (lexer p)) /\
   lexer (advanced p) = snd (next_token (lexer p)) /\
   indent (advanced p) = indent p)
  /\
  (type (current_token p) <> INDENT -> eat_indent p = Ret tt p).
Proof.
  unfold eat_indent, bind, get_indent, current. cbv beta.
  split; [| split].
  - intros Ht Hv. rewrite Ht, String.eqb_refl.
    assert (E : py_eq (VInt (indent p * INDENT_LENGTH))
                      (value (current_token p)) = false)
      by (apply py_eq_false; congruence).
    rewrite E. reflexivity.
  - intros Ht Hv. rewrite Ht, String.eqb_refl.
    assert (E : py_eq (VInt (indent p * INDENT_LENGTH))
                      (value (current_token p)) = true)
      by (apply py_eq_true; congruence).
    rewrite E. cbn [negb].
    split; [apply eat_ok; assumption | repeat split].
  - intros Ht. fold eat_indent. apply eat_indent_keeps, Ht.
Qed.

(** ** The keyword classifier *)

(** C7: [iskeyword] returns [True] on a string of the supported keyword
    set, raises [KeyError] at once on a reserved word of the interpreter's
    larger list that is not supported, and returns [False] on every other
    string. *)
Theorem iskeyword_spec (kwlist : list string) (s : string) :
  (In s keywords -> iskeyword kwlist s = KwReturn true)
  /\
  (~ In s keywords -> In s kwlist -> iskeyword kwlist s = KwKeyError s)
  /\
  (~ In s keywords -> ~ In s kwlist -> iskeyword kwlist s = KwReturn false).
Proof.
  unfold iskeyword. repeat split.
  - intros H. apply str_mem_In in H. rewrite H. reflexivity.
  - intros H1 H2. apply str_mem_not_In in H1. apply str_mem_In in H2.
    rewrite H1, H2. reflexivity.
  - intros H1 H2. apply str_mem_not_In in H1. apply str_mem_not_In in H2.
    rewrite H1, H2. reflexivity.
Qed.

(** ** One step of each function of the expression grammar *)

Lemma bind_Ret {A B} (m : M A) (k : A -> M B) p a p1 :
  m p = Ret a p1 -> bind m k p = k a p1.
Proof. intros H. unfold bind. rewrite H. reflexivity. Qed.

Lemma ends_expression_inv t :
  ends_expression t = true ->
  exists s, value t = VStr s /\ is_substring s "*/" = false /\
            is_substring s "+-" = false /\ str_mem s operator = false.
Proof.
  unfold ends_expression. destruct (value t) as [s | z]; [| discriminate].
  intros H. apply andb_true_iff in H. destruct H as [H H3].
  apply andb_true_iff in H. destruct H as [H1 H2].
  apply negb_true_iff in H1, H2, H3. eauto.
Qed.

Lemma term_mul_div_loop_stop n node p :
  ends_expression (current_token p) = true ->
  term_mul_div_loop (S n) node p = Ret node p.
Proof.
  intros H. destruct (ends_expression_inv _ H) as (s & Ev & H1 & _).
  cbn [term_mul_div_loop]. unfold bind, current. rewrite Ev.
  unfold in_str, ret. rewrite H1. reflexivity.
Qed.

Lemma term_plus_minus_loop_stop n node p :
  ends_expression (current_token p) = true ->
  term_plus_minus_loop (S n) node p = Ret node p.
Proof.
  intros H. destruct (ends_expression_inv _ H) as (s & Ev & _ & H2 & _).
  cbn [term_plus_minus_loop]. unfold bind, current. rewrite Ev.
  unfold in_str, ret. rewrite H2. reflexivity.
Qed.

Lemma expr_loop_stop n node p :
  ends_expression (current_token p) = true ->
  expr_loop (S n) node p = Ret node p.
Proof.
  intros H. destruct (ends_expression_inv _ H) as (s & Ev & _ & _ & H3).
  cbn [expr_loop]. unfold bind, current. rewrite Ev.
  unfold in_operator. rewrite H3. reflexivity.
Qed.

Lemma term_mul_div_loop_step n node p s right p1 :
  value (current_token p) = VStr s ->
  is_substring s "*/" = true ->
  type (current_token p) = s ->
  factor n (advanced p) = Ret right p1 ->
  term_mul_div_loop (S n) node p =
  term_mul_div_loop n (Op node (current_token p) right) p1.
Proof.
  intros Ev Hs Et Hf.
  cbn [term_mul_div_loop]. unfold bind at 1. unfold current at 1.
  unfold bind at 1. rewrite Ev. unfold in_str, ret. rewrite Hs.
  unfold bind at 1. rewrite (eat_ok p Et).
  unfold bind. rewrite Hf. reflexivity.
Qed.

Lemma term_plus_minus_loop_step n node p s right p1 :
  value (current_token p) = VStr s ->
  is_substring s "+-" = true ->
  term_mul_div n (advanced p) = Ret right p1 ->
  term_plus_minus_loop (S n) node p =
  term_plus_minus_loop n (Op node (current_token p) right) p1.
Proof.
  intros Ev Hs Hf.
  cbn [term_plus_minus_loop]. unfold bind at 1. unfold current at 1.
  unfold bind at 1. rewrite Ev. unfold in_str, ret. rewrite Hs.
  unfold bind at 1. rewrite (eat_ok p eq_refl).
  unfold bind. rewrite Hf. reflexivity.
Qed.

Lemma term_mul_div_eq n p a p1 :
  factor n p = Ret a p1 ->
  term_mul_div (S n) p = term_mul_div_loop n a p1.
Proof. intros H. cbn [term_mul_div]. apply bind_Ret, H. Qed.

Lemma term_plus_minus_eq n p a p1 :
  term_mul_div n p = Ret a p1 ->
  term_plus_minus (S n) p = term_plus_minus_loop n a p1.
Proof. intros H. cbn [term_plus_minus]. apply bind_Ret, H. Qed.

Lemma expr_eq n p a p1 :
  term_plus_minus n p = Ret a p1 ->
  expr (S n) p = expr_loop n a p1.
Proof. intros H. cbn [expr]. apply bind_Ret, H. Qed.

(** ** The expression grammar *)

(** C8: on the tokens of [- - 3] the factor parser returns a [UnaryOp]
    whose operand is a [UnaryOp] whose operand is the [Num] of 3. *)
Theorem unary_chaining (fuel : nat) (l : Z) (rest : list Token) :
  (3 <= fuel)%nat ->
  factor fuel
    (Parser_init
       (symbol "-" l 0 :: symbol "-" l 2 :: number (VInt 3) l 4 :: rest))
  = Ret (UnaryOp (symbol "-" l 0)
           (UnaryOp (symbol "-" l 2) (Num (number (VInt 3) l 4))))
        (advanced (mkParser rest 0 (number (VInt 3) l 4))).
Proof.
  intros Hf. apply factor_fuel with (n := 3%nat); [exact Hf |].
  destruct rest; reflexivity.
Qed.

(** C2: [1 + 2 * 3] parses to the additive [Op] whose right child is the
    multiplicative [Op]; [(1 + 2) * 3] parses to the multiplicative [Op]
    whose left child is the [Op] of the parenthesised addition. *)
Theorem precedence (fuel : nat) (l : Z) (stop : Token) (rest : list Token) :
  ends_expression stop = true ->
  (9 <= fuel)%nat ->
  expr fuel
    (Parser_init
       (number (VInt 1) l 0 :: symbol "+" l 2 :: number (VInt 2) l 4
        :: symbol "*" l 6 :: number (VInt 3) l 8 :: stop :: rest))
  = Ret (Op (Num (number (VInt 1) l 0)) (symbol "+" l 2)
           (Op (Num (number (VInt 2) l 4)) (symbol "*" l 6)
               (Num (number (VInt 3) l 8))))
        (mkParser rest 0 stop)
  /\
  expr fuel
    (Parser_init
       (symbol "(" l 0 :: number (VInt 1) l 1 :: symbol "+" l 3
        :: number (VInt 2) l 5 :: symbol ")" l 6 :: symbol "*" l 8
        :: number (VInt 3) l 10 :: stop :: rest))
  = Ret (Op (Op (Num (number (VInt 1) l 1)) (symbol "+" l 3)
                (Num (number (VInt 2) l 5)))
            (symbol "*" l 8)
            (Num (number (VInt 3) l 10)))
        (mkParser rest 0 stop).
Proof.
  intros Hs Hf.
  split; apply expr_fuel with (n := 9%nat); try exact Hf;
    unfold Parser_init, next_token.
  - erewrite expr_eq; [apply expr_loop_stop; exact Hs |].
    erewrite term_plus_minus_eq by reflexivity.
    erewrite term_plus_minus_loop_step;
      [apply term_plus_minus_loop_stop; exact Hs
      | reflexivity | reflexivity |].
    erewrite term_mul_div_eq by reflexivity.
    erewrite term_mul_div_loop_step;
      [apply term_mul_div_loop_stop; exact Hs | reflexivity ..].
  - erewrite expr_eq; [apply expr_loop_stop; exact Hs |].
    erewrite term_plus_minus_eq;
      [apply term_plus_minus_loop_stop; exact Hs |].
    erewrite term_mul_div_eq by reflexivity.
    erewrite term_mul_div_loop_step;
      [apply term_mul_div_loop_stop; exact Hs | reflexivity ..].
Qed.

(** ** Inversion of successful runs *)

Lemma bind_inv {A B} (m : M A) (k : A -> M B) p b p2 :
  bind m k p = Ret b p2 ->
  exists a p1, m p = Ret a p1 /\ k a p1 = Ret b p2.
Proof.
  unfold bind. destruct (m p) as [a p1 | e |]; try discriminate. eauto.
Qed.

Lemma ret_inv {A} (a b : A) p p' : ret a p = Ret b p' -> a = b /\ p = p'.
Proof. unfold ret. intros H. inversion H. auto. Qed.

Ltac inv_run H :=
  repeat
    match type of H with
    | bind _ _ _ = Ret _ _ =>
        let a := fresh "a" in
        let q := fresh "q" in
        let E := fresh "E" in
        apply bind_inv in H; destruct H as (a & q & E & H)
    | ret _ _ = Ret _ _ =>
        apply ret_inv in H; destruct H as [? ?]; subst
    end.

Lemma empty_keeps p :
  type (current_token p) <> NEWLINE -> empty p = Ret EmptyOp p.
Proof.
  intros H. apply String.eqb_neq in H.
  unfold empty, bind, current. rewrite H. reflexivity.
Qed.

Lemma variable_inv p a p' : variable p = Ret a p' -> exists t, a = Var t.
Proof. unfold variable. intros H. inv_run H. eauto. Qed.

Lemma empty_inv p a p' : empty p = Ret a p' -> a = EmptyOp.
Proof. unfold empty. intros H. inv_run H. reflexivity. Qed.

Ltac crunch :=
  repeat
    match goal with
    | H : bind _ _ _ = Ret _ _ |- _ =>
        let a := fresh "a" in
        let q := fresh "q" in
        let E := fresh "E" in
        apply bind_inv in H; destruct H as (a & q & E & H)
    | H : ret _ _ = Ret _ _ |- _ =>
        apply ret_inv in H; destruct H as [? ?]; subst
    | H : raise _ _ = Ret _ _ |- _ => discriminate H
    | H : tokens_EOF _ = Ret _ _ |- _ => discriminate H
    | H : delimiter_getitem _ _ = Ret _ _ |- _ => discriminate H
    | H : keywords_getattr _ _ = Ret _ _ |- _ => discriminate H
    | H : out_of_fuel _ = Ret _ _ |- _ => discriminate H
    | H : Ret _ _ = Ret _ _ |- _ => inversion H; subst; clear H
    | H : (if ?b then _ else _) _ = Ret _ _ |- _ => destruct b eqn:?
    | H : (if ?b then _ else _) = Ret _ _ |- _ => destruct b eqn:?
    | H : match ?x with Some _ => _ | None => _ end _ = Ret _ _ |- _ =>
        destruct x eqn:?
    | H : variable _ = Ret _ _ |- _ =>
        apply variable_inv in H; destruct H as [? ?]; subst
    | H : empty _ = Ret _ _ |- _ => apply empty_inv in H; subst
    end.

(** ** The reads of [tokens] that raise

    [block] reads [tokens.EOF] as soon as [check_indent] holds,
    [statement] reads [tokens.delimiter['(']] on an identifier that has a
    lookahead and [tokens.keywords.IF] on any other token, and
    [elif_statement] reads [tokens.keywords.ELSE] on every token whose
    value is not ['elif']. *)

Lemma block_loop_entered n r p :
  check_indent p = true -> block_loop (S n) r p = Raise AttributeError.
Proof. intros H. cbn [block_loop]. rewrite H. reflexivity. Qed.

Lemma block_loop_skipped n r p :
  check_indent p = false -> block_loop (S n) r p = Ret r p.
Proof. intros H. cbn [block_loop]. rewrite H. reflexivity. Qed.

Lemma block_entered n p :
  check_indent p = true -> block (S (S n)) p = Raise AttributeError.
Proof.
  intros H. cbn [block]. unfold bind.
  rewrite (block_loop_entered n [] p H). reflexivity.
Qed.

Lemma block_skipped n p :
  check_indent p = false -> block (S (S n)) p = Ret (Block []) p.
Proof.
  intros H. cbn [block]. unfold bind.
  rewrite (block_loop_skipped n [] p H). reflexivity.
Qed.

Lemma program_entered n p :
  check_indent p = true -> program (S (S (S n))) p = Raise AttributeError.
Proof.
  intros H. cbn [program]. unfold bind at 1.
  rewrite (block_entered n p H). reflexivity.
Qed.

Lemma check_indent_top_level p : indent p = 0 -> check_indent p = true.
Proof. intros H. unfold check_indent. rewrite H. reflexivity. Qed.

Lemma block_loop_returns n r p a p' :
  block_loop n r p = Ret a p' ->
  a = r /\ p' = p /\ check_indent p = false.
Proof.
  destruct n; [discriminate |].
  destruct (check_indent p) eqn:E.
  - rewrite (block_loop_entered n r p E). discriminate.
  - rewrite (block_loop_skipped n r p E). intros H. inversion H. auto.
Qed.

Lemma block_returns n p a p' :
  block n p = Ret a p' ->
  a = Block [] /\ p' = p /\ check_indent p = false.
Proof.
  destruct n; [discriminate |]. cbn [block]. intros H. inv_run H.
  apply block_loop_returns in E. destruct E as (-> & -> & E). auto.
Qed.

Lemma statement_alone n p :
  type (current_token p) = ID ->
  peek_token (lexer p) = None ->
  statement (S n) p = Ret EmptyOp p.
Proof.
  intros Hid Hp. cbn [statement]. unfold bind at 1, current.
  rewrite Hid. cbn [String.eqb Ascii.eqb Bool.eqb ID].
  unfold bind at 1, peek. rewrite Hp.
  apply empty_keeps. rewrite Hid. discriminate.
Qed.

Lemma statement_lookahead n p nxt :
  type (current_token p) = ID ->
  peek_token (lexer p) = Some nxt ->
  statement (S n) p = Raise TypeError.
Proof.
  intros Hid Hp. cbn [statement]. unfold bind at 1, current.
  rewrite Hid. cbn [String.eqb Ascii.eqb Bool.eqb ID].
  unfold bind at 1, peek. rewrite Hp. reflexivity.
Qed.

Lemma statement_not_identifier n p :
  type (current_token p) <> ID ->
  statement (S n) p = Raise AttributeError.
Proof.
  intros Hid. apply String.eqb_neq in Hid.
  cbn [statement]. unfold bind at 1, current.
  rewrite Hid. reflexivity.
Qed.

Lemma statement_returns n p a p' :
  statement n p = Ret a p' ->
  a = EmptyOp /\ p' = p
  /\ type (current_token p) = ID /\ peek_token (lexer p) = None.
Proof.
  destruct n; [discriminate |].
  destruct (String.eqb_spec (type (current_token p)) ID) as [Hid | Hid].
  - destruct (peek_token (lexer p)) as [nxt |] eqn:Hp.
    + rewrite (statement_lookahead n p Hid Hp). discriminate.
    + rewrite (statement_alone n p Hid Hp). intros H. inversion H. subst.
      auto.
  - rewrite (statement_not_identifier n p Hid). discriminate.
Qed.

Lemma elif_statement_other n p :
  value (current_token p) <> VStr "elif" ->
  elif_statement (S n) p = Raise AttributeError.
Proof.
  intros Hv. apply py_eq_false in Hv.
  cbn [elif_statement]. unfold bind at 1, current.
  rewrite Hv. reflexivity.
Qed.

Lemma elif_statement_never n : forall p a p', elif_statement n p <> Ret a p'.
Proof.
  induction n as [| n IH]; intros p a p' H; [discriminate |].
  cbn [elif_statement] in H. crunch.
  eapply IH; eassumption.
Qed.

Lemma if_statement_never n p a p' : if_statement n p <> Ret a p'.
Proof.
  destruct n; intros H; [discriminate |].
  cbn [if_statement] in H. crunch.
  eapply elif_statement_never; eassumption.
Qed.

(** An [if] line that parses, followed by a token whose value is not
    ['elif']: the body is entered and [tokens.EOF] is read, or it is not
    entered and [tokens.keywords.ELSE] is read. *)
Lemma if_statement_raises n p c p2 :
  type (current_token p) = "if" ->
  expr (S (S n)) (advanced p) = Ret c p2 ->
  type (current_token p2) = ":" ->
  type (current_token (advanced p2)) = NEWLINE ->
  value (current_token (advanced (advanced p2))) <> VStr "elif" ->
  if_statement (S (S (S n))) p = Raise AttributeError.
Proof.
  intros Hif He Hc Hn Hv.
  cbn [if_statement]. unfold bind at 1, current.
  unfold bind at 1. rewrite (eat_ok p Hif).
  unfold bind at 1. rewrite He.
  unfold bind at 1. rewrite (eat_ok p2 Hc).
  unfold bind at 1. rewrite (eat_ok (advanced p2) Hn).
  unfold bind at 1, add_indent at 1.
  match goal with
  | |- bind _ _ ?q = _ => destruct (check_indent q) eqn:E
  end.
  - unfold bind at 1. rewrite (block_entered n _ E). reflexivity.
  - unfold bind at 1. rewrite (block_skipped n _ E).
    unfold bind at 1, add_indent at 1.
    unfold bind at 1.
    rewrite elif_statement_other by exact Hv. reflexivity.
Qed.

(** ** The statement dispatcher *)

(** C1: what [statement] does on an identifier.  Without a lookahead
    token it returns [EmptyOp] and consumes nothing.  With a lookahead
    token, whatever it is, the read of [tokens.delimiter['(']] raises
    [TypeError] before any production is chosen: [foo(1, 2)], [foo = 1]
    and [foo] followed by a newline raise [TypeError] and yield no
    [FunctionCall], [Assign] or [EmptyOp] node. *)
Theorem statement_dispatch :
  (forall (n : nat) (p : Parser),
      type (current_token p) = ID ->
      (peek_token (lexer p) = None -> statement (S n) p = Ret EmptyOp p)
      /\
      (forall nxt, peek_token (lexer p) = Some nxt ->
         statement (S n) p = Raise TypeError))
  /\
  (forall (fuel : nat) (l : Z) (rest : list Token),
      (1 <= fuel)%nat ->
      statement fuel
        (Parser_init
           (identifier "foo" l 0 :: symbol "(" l 3 :: number (VInt 1) l 4
            :: symbol "," l 5 :: number (VInt 2) l 7 :: symbol ")" l 8
            :: newline l 9 :: rest))
      = Raise TypeError
      /\
      statement fuel
        (Parser_init
           (identifier "foo" l 0 :: symbol "=" l 4 :: number (VInt 1) l 6
            :: newline l 7 :: rest))
      = Raise TypeError
      /\
      statement fuel (Parser_init (identifier "foo" l 0 :: newline l 3 :: rest))
      = Raise TypeError
      /\
      statement fuel (Parser_init [identifier "foo" l 0])
      = Ret EmptyOp (mkParser [] 0 (identifier "foo" l 0))).
Proof.
  split.
  - intros n p Hid. split.
    + intros Hp. apply statement_alone; assumption.
    + intros nxt Hp. eapply statement_lookahead; eassumption.
  - intros fuel l rest Hf.
    destruct fuel as [| n]; [lia |].
    repeat split;
      first [ eapply statement_lookahead; reflexivity
            | apply statement_alone; reflexivity ].
Qed.

(** ** Control flow *)

(** C6: an [if] statement whose condition is not followed by [':'].
    Where [expr] returns the condition and the token then current is not
    of type [':'], [if_statement] raises the unexpected-token exception
    that carries this token and the expected type [':'].  Where the
    condition is an identifier at the end of the input, as in [if x],
    [factor] reads [peek_token().type] on [None] and [if_statement]
    raises [AttributeError] instead; and [parse] raises [AttributeError]
    on [if 1] followed by a newline, at the read of [tokens.EOF], before
    the statement is reached. *)
Theorem if_missing_colon :
  (forall (n m : nat) (p p2 : Parser) (c : ast),
      type (current_token p) = "if" ->
      expr n (advanced p) = Ret c p2 ->
      type (current_token p2) <> ":" ->
      (S n <= m)%nat ->
      if_statement m p
      = Raise (PyException (current_token p2) (Some (VStr ":"))))
  /\
  (forall (fuel : nat) (l : Z),
      (5 <= fuel)%nat ->
      if_statement fuel
        (Parser_init [symbol "if" l 0; identifier "x" l 3])
      = Raise AttributeError)
  /\
  (forall (fuel : nat),
      (5 <= fuel)%nat ->
      if_statement fuel (Parser_init if_without_colon_tokens)
      = Raise (PyException (newline 1 4) (Some (VStr ":")))
      /\
      parse fuel (Parser_init if_without_colon_tokens)
      = Raise AttributeError).
Proof.
  assert (G : forall (n m : nat) (p p2 : Parser) (c : ast),
      type (current_token p) = "if" ->
      expr n (advanced p) = Ret c p2 ->
      type (current_token p2) <> ":" ->
      (S n <= m)%nat ->
      if_statement m p
      = Raise (PyException (current_token p2) (Some (VStr ":")))).
  { intros n m p p2 c Hif He Hc Hm.
    apply if_statement_fuel_raise with (n := S n); [exact Hm |].
    cbn [if_statement]. unfold bind at 1, current.
    unfold bind at 1. rewrite (eat_ok p Hif).
    unfold bind at 1. rewrite He.
    unfold bind at 1. rewrite (eat_fail p2 Hc). reflexivity. }
  split; [exact G | split].
  - intros fuel l Hf.
    apply if_statement_fuel_raise with (n := 5%nat); [exact Hf |].
    reflexivity.
  - intros fuel Hf. split.
    + apply if_statement_fuel_raise with (n := 5%nat); [exact Hf |].
      reflexivity.
    + unfold parse.
      apply program_fuel_raise with (n := 3%nat); [lia |].
      apply program_entered. reflexivity.
Qed.

(** ** The fall-through of [factor] *)

Lemma factor_falls_through n p :
  is_substring (type (current_token p)) "+-" = false ->
  ~ In (type (current_token p))
       [NUMBER; ID; "("; "True"; "False"; STRING] ->
  factor (S n) p = Ret PyNone p.
Proof.
  intros Hs Hn.
  cbn [factor]. unfold bind at 1, current. rewrite Hs.
  repeat
    match goal with
    | |- context [String.eqb (type (current_token p)) ?x] =>
        destruct (String.eqb_spec (type (current_token p)) x) as [E | E];
        [exfalso; apply Hn; rewrite E; simpl; tauto | clear E]
    end.
  unfold str_mem, existsb.
  repeat
    match goal with
    | |- context [String.eqb (type (current_token p)) ?x] =>
        destruct (String.eqb_spec (type (current_token p)) x) as [E | E];
        [exfalso; apply Hn; rewrite E; simpl; tauto | clear E]
    end.
  reflexivity.
Qed.

(** C10: on a token that starts none of its alternatives, such as an end
    marker, a newline or a delimiter, [factor] returns [None] without
    raising and without consuming the token; [expr], [factor],
    [assign_statement] and [function_call] then build an [Op], a
    [UnaryOp], an [Assign] and an argument list with [None] as an
    operand. *)
Theorem factor_returns_none :
  (forall (n : nat) (p : Parser),
      is_substring (type (current_token p)) "+-" = false ->
      ~ In (type (current_token p))
           [NUMBER; ID; "("; "True"; "False"; STRING] ->
      factor (S n) p = Ret PyNone p)
  /\
  (forall (n : nat) (p : Parser),
      In (type (current_token p)) [ENDMARKER; NEWLINE; ":"; ")"; ","] ->
      factor (S n) p = Ret PyNone p)
  /\
  (forall (fuel : nat) (l : Z) (rest : list Token),
      (8 <= fuel)%nat ->
      expr fuel
        (Parser_init
           (number (VInt 1) l 0 :: symbol "+" l 2 :: newline l 3 :: rest))
      = Ret (Op (Num (number (VInt 1) l 0)) (symbol "+" l 2) PyNone)
            (mkParser rest 0 (newline l 3))
      /\
      factor fuel (Parser_init (symbol "-" l 0 :: newline l 1 :: rest))
      = Ret (UnaryOp (symbol "-" l 0) PyNone)
            (mkParser rest 0 (newline l 1))
      /\
      assign_statement fuel
        (Parser_init
           (identifier "x" l 0 :: symbol "=" l 2 :: newline l 3 :: rest))
      = Ret (Assign (Var (identifier "x" l 0)) (symbol "=" l 2) PyNone)
            (advanced (mkParser rest 0 (newline l 3)))
      /\
      function_call fuel
        (Parser_init
           (identifier "f" l 0 :: symbol "(" l 1 :: number (VInt 1) l 2
            :: symbol "," l 3 :: symbol ")" l 4 :: newline l 5 :: rest))
      = Ret (FunctionCall (Var (identifier "f" l 0))
               [Num (number (VInt 1) l 2); PyNone])
            (mkParser rest 0 (newline l 5))).
Proof.
  split; [exact factor_falls_through | split].
  - intros n p H. apply factor_falls_through.
    + simpl in H.
      repeat (destruct H as [H | H]; [rewrite <- H; reflexivity |]).
      contradiction.
    + simpl in H. simpl.
      repeat (destruct H as [H | H];
              [rewrite <- H; intuition discriminate |]).
      contradiction.
  - intros fuel l rest Hf. repeat split.
    + apply expr_fuel with (n := 8%nat); [exact Hf | reflexivity].
    + apply factor_fuel with (n := 8%nat); [exact Hf | reflexivity].
    + apply assign_statement_fuel with (n := 8%nat); [exact Hf |].
      destruct rest; reflexivity.
    + apply function_call_fuel with (n := 8%nat); [exact Hf |].
      reflexivity.
Qed.

(** ** The trees that are returned *)

Ltac use_ih :=
  repeat
    match goal with
    | H : block _ _ = Ret _ _ |- _ =>
        apply block_returns in H; destruct H as (? & ? & ?); subst
    | H : elif_statement _ _ = Ret _ _ |- _ =>
        exfalso; exact (elif_statement_never H)
    | IH : forall p a p', ?f ?n p = Ret a p' -> _,
      H : ?f ?n _ = Ret _ _ |- _ => apply IH in H
    | IH : forall r p a p', _ -> ?f ?n r p = Ret a p' -> _,
      H : ?f ?n _ _ = Ret _ _ |- _ =>
        apply IH in H;
        [| cbn [bare forallb];
           repeat rewrite forallb_app; cbn [forallb];
           repeat match goal with
                  | E : _ = true |- _ => rewrite E
                  end; reflexivity ]
    end.

Ltac finish :=
  cbn [bare forallb];
  repeat match goal with
         | E : _ = true |- _ => rewrite E
         end;
  reflexivity.

Lemma bare_all : forall n, bare_at n.
Proof.
  induction n as [| n IH].
  - repeat split; intros; discriminate.
  - destruct IH as
      (H1 & H2 & H3 & H4 & H5 & H6 & H7 & H8 & H9 & H10 & H11 & H12 & H13
         & H14 & H15 & H16 & H17 & H18 & H19).
    clear H3 H4 H5 H10 H11.
    unfold bare_at.
    repeat match goal with |- _ /\ _ => split end;
      try (intros; eapply block_returns; eassumption);
      try (intros; eapply block_loop_returns; eassumption);
      try (intros p a p' H; apply statement_returns in H;
           destruct H as (? & ? & _); auto; fail);
      try (intros; apply if_statement_never);
      try (intros; apply elif_statement_never);
      intros;
      match goal with
      | H : _ = Ret _ _ |- _ =>
          cbn [program function_def block block_loop statement
               function_call argument_list argument_loop while_statement
               if_statement elif_statement assign_statement expr expr_loop
               term_plus_minus term_plus_minus_loop term_mul_div
               term_mul_div_loop factor] in H
      end;
      crunch; use_ih; finish.
Qed.

Lemma bare_nodes (a : ast) :
  bare a = true -> forall x, In x (nodes a) -> dispatched x = false.
Proof.
  induction a using ast_nested_ind; cbn [bare nodes]; intros O x HIn;
    try discriminate O;
    try match type of O with
        | match ?c with [] => _ | _ :: _ => _ end = true =>
            destruct c; [| discriminate O]
        end;
    repeat match goal with
           | H : _ && _ = true |- _ =>
               apply andb_true_iff in H; destruct H
           end;
    (destruct HIn as [E | HIn]; [subst x; reflexivity |]);
    repeat match goal with
           | H : In _ (_ ++ _) |- _ =>
               apply in_app_or in H; destruct H
           | H : In _ [] |- _ => destruct H
           | H : In _ (flat_map _ _) |- _ =>
               apply in_flat_map in H; destruct H as (? & ? & ?)
           | F : Forall _ ?l, I : In ?y ?l |- _ =>
               rewrite Forall_forall in F
           | O : forallb _ ?l = true |- _ =>
               rewrite forallb_forall in O
           end;
    eauto.
Qed.

Lemma function_def_bare n p a p' :
  function_def n p = Ret a p' -> bare a = true.
Proof. intros H. destruct (bare_all n) as (_ & F & _). exact (F _ _ _ H). Qed.

Lemma while_statement_bare n p a p' :
  while_statement n p = Ret a p' -> bare a = true.
Proof.
  intros H.
  destruct (bare_all n) as (_ & _ & _ & _ & _ & _ & _ & _ & F & _).
  exact (F _ _ _ H).
Qed.

Lemma expr_bare n p a p' : expr n p = Ret a p' -> bare a = true.
Proof.
  intros H.
  destruct (bare_all n) as
    (_ & _ & _ & _ & _ & _ & _ & _ & _ & _ & _ & _ & F & _).
  exact (F _ _ _ H).
Qed.

Lemma program_bare n p a p' : program n p = Ret a p' -> bare a = true.
Proof. intros H. destruct (bare_all n) as (F & _). exact (F _ _ _ H). Qed.


(** ** The chain of [elif] branches *)

(** C5: no chain of [If] nodes is built.  [if_statement] and
    [elif_statement] do not return, whatever the input and the fuel: on
    every token whose value is not ['elif'], [elif_statement] reads
    [tokens.keywords.ELSE] and raises [AttributeError], and a chain of
    [elif] branches ends on such a token.  On [if], [elif] and [else]
    lines [if_statement] raises [AttributeError]: with indented bodies
    in or after the first body, with empty bodies at the read of
    [tokens.keywords.ELSE] on the [else] token. *)
Theorem elif_chain :
  (forall (n : nat) (p p' : Parser) (a : ast),
      if_statement n p <> Ret a p' /\ elif_statement n p <> Ret a p')
  /\
  (forall (n : nat) (p : Parser),
      value (current_token p) <> VStr "elif" ->
      elif_statement (S n) p = Raise AttributeError)
  /\
  (forall (fuel : nat),
      (8 <= fuel)%nat ->
      if_statement fuel (Parser_init if_elif_else_tokens)
      = Raise AttributeError
      /\
      if_statement fuel (Parser_init if_elif_else_flat_tokens)
      = Raise AttributeError).
Proof.
  split; [| split].
  - intros n p p' a. split.
    + apply if_statement_never.
    + apply elif_statement_never.
  - intros n p Hv. apply elif_statement_other. exact Hv.
  - intros fuel Hf. split;
      (apply if_statement_fuel_raise with (n := 8%nat); [exact Hf |]).
    + eapply if_statement_raises; try reflexivity. discriminate.
    + reflexivity.
Qed.

(** ** What a successful call does to the parser state *)

Lemma moves_refl p : moves p p.
Proof. exists 0%nat. reflexivity. Qed.

Lemma moves_same p p' : cursor p' = cursor p -> moves p p'.
Proof. intros H. exists 0%nat. exact H. Qed.

Lemma moves_trans p q r : moves p q -> moves q r -> moves p r.
Proof.
  intros [k Hk] [j Hj]. exists (j + k)%nat.
  rewrite Hj, Hk. symmetry. apply Nat.iter_add.
Qed.

Lemma advance_moves p a p' :
  advance p = Ret a p' -> indent p' = indent p /\ moves p p'.
Proof.
  rewrite advance_eq. intros H. inversion H; subst. split; [reflexivity |].
  exists 1%nat. unfold cursor, advanced, step_cursor. simpl.
  destruct (next_token (lexer p)); reflexivity.
Qed.

Lemma eat_moves ty : framed (eat ty).
Proof.
  intros p a p'. unfold eat, bind, current.
  destruct (py_eq (VStr (type (current_token p))) ty).
  - apply advance_moves.
  - discriminate.
Qed.

Lemma eat_indent_moves : framed eat_indent.
Proof.
  intros p a p'. unfold eat_indent, bind, get_indent, current.
  destruct (String.eqb (type (current_token p)) INDENT).
  - destruct (negb (py_eq (VInt (indent p * INDENT_LENGTH))
                          (value (current_token p)))).
    + discriminate.
    + apply eat_moves.
  - intros H. inversion H; subst. split; [reflexivity | apply moves_refl].
Qed.

Lemma empty_moves : framed empty.
Proof.
  intros p a p'. unfold empty, bind at 1, current. unfold bind at 1.
  destruct (String.eqb (type (current_token p)) NEWLINE).
  - destruct (eat NEWLINE p) eqn:E; try discriminate.
    intros H. inversion H; subst. eapply eat_moves; eassumption.
  - intros H. inversion H; subst. split; [reflexivity | apply moves_refl].
Qed.

Lemma variable_moves : framed variable.
Proof.
  intros p a p'. unfold variable, bind at 1, current. unfold bind.
  destruct (eat ID p) eqn:E; try discriminate.
  intros H. inversion H; subst. eapply eat_moves; eassumption.
Qed.

Lemma add_indent_moves d p a p' :
  add_indent d p = Ret a p' -> indent p' = indent p + d /\ moves p p'.
Proof.
  unfold add_indent. intros H. inversion H; subst.
  split; [reflexivity | apply moves_same; reflexivity].
Qed.

Lemma in_str_inv v hay p b p' : in_str v hay p = Ret b p' -> p' = p.
Proof.
  unfold in_str. destruct v; [| discriminate].
  intros H. inversion H. reflexivity.
Qed.

Ltac read_state :=
  repeat
    match goal with
    | H : current _ = Ret _ _ |- _ =>
        unfold current in H; inversion H; subst; clear H
    | H : peek _ = Ret _ _ |- _ =>
        unfold peek in H; inversion H; subst; clear H
    | H : get_indent _ = Ret _ _ |- _ =>
        unfold get_indent in H; inversion H; subst; clear H
    | H : in_str _ _ _ = Ret _ _ |- _ => apply in_str_inv in H; subst
    end.

Ltac crunch_frame :=
  repeat
    match goal with
    | H : bind _ _ _ = Ret _ _ |- _ =>
        let a := fresh "a" in
        let q := fresh "q" in
        let E := fresh "E" in
        apply bind_inv in H; destruct H as (a & q & E & H)
    | H : ret _ _ = Ret _ _ |- _ =>
        apply ret_inv in H; destruct H as [? ?]; subst
    | H : raise _ _ = Ret _ _ |- _ => discriminate H
    | H : tokens_EOF _ = Ret _ _ |- _ => discriminate H
    | H : delimiter_getitem _ _ = Ret _ _ |- _ => discriminate H
    | H : keywords_getattr _ _ = Ret _ _ |- _ => discriminate H
    | H : out_of_fuel _ = Ret _ _ |- _ => discriminate H
    | H : Ret _ _ = Ret _ _ |- _ => inversion H; subst; clear H
    | H : (if ?b then _ else _) _ = Ret _ _ |- _ => destruct b eqn:?
    | H : (if ?b then _ else _) = Ret _ _ |- _ => destruct b eqn:?
    | H : match ?x with Some _ => _ | None => _ end _ = Ret _ _ |- _ =>
        destruct x eqn:?
    | _ => progress read_state
    end.

Ltac frame_facts :=
  repeat
    match goal with
    | H : eat _ _ = Ret _ _ |- _ => apply eat_moves in H; destruct H
    | H : eat_indent _ = Ret _ _ |- _ =>
        apply eat_indent_moves in H; destruct H
    | H : empty _ = Ret _ _ |- _ => apply empty_moves in H; destruct H
    | H : variable _ = Ret _ _ |- _ => apply variable_moves in H; destruct H
    | H : add_indent _ _ = Ret _ _ |- _ =>
        apply add_indent_moves in H; destruct H
    | IH : framed (?f ?n), H : ?f ?n _ = Ret _ _ |- _ =>
        apply IH in H; destruct H
    | IH : forall r, framed (?f ?n r), H : ?f ?n _ _ = Ret _ _ |- _ =>
        apply IH in H; destruct H
    end.

Ltac chain_moves :=
  repeat
    match goal with
    | H1 : moves ?a ?b, H2 : moves ?b ?c |- _ =>
        pose proof (moves_trans H1 H2); clear H1 H2
    end;
  first [assumption | apply moves_refl].

Lemma frame_all : forall n, frame_at n.
Proof.
  induction n as [| n IH].
  - repeat split; intros; discriminate.
  - destruct IH as
      (H1 & H2 & H3 & H4 & H5 & H6 & H7 & H8 & H9 & H10 & H11 & H12 & H13
         & H14 & H15 & H16 & H17 & H18 & H19).
    unfold frame_at.
    repeat match goal with |- _ /\ _ => split end;
      intros; intros p a p' H;
      cbn [program function_def block block_loop statement
           function_call argument_list argument_loop while_statement
           if_statement elif_statement assign_statement expr expr_loop
           term_plus_minus term_plus_minus_loop term_mul_div
           term_mul_div_loop factor] in H;
      crunch_frame; frame_facts; (split; [lia | chain_moves]).
Qed.


Lemma iter_advanced_cursor k p :
  cursor (Nat.iter k advanced p) = Nat.iter k step_cursor (cursor p).
Proof.
  induction k as [| k IH]; [reflexivity |].
  rewrite !Nat.iter_succ, <- IH.
  generalize (Nat.iter k advanced p). intros q.
  unfold cursor, advanced, step_cursor. simpl.
  destruct (next_token (lexer q)); reflexivity.
Qed.

Lemma iter_advanced_indent k p : indent (Nat.iter k advanced p) = indent p.
Proof.
  induction k as [| k IH]; [reflexivity |].
  rewrite Nat.iter_succ. exact IH.
Qed.

Lemma framed_advanced p p' :
  indent p' = indent p -> moves p p' -> exists k, p' = Nat.iter k advanced p.
Proof.
  intros Hi [k Hk]. exists k.
  rewrite <- iter_advanced_cursor in Hk.
  pose proof (iter_advanced_indent k p) as Hj.
  destruct p' as [l' i' c'], (Nat.iter k advanced p) as [l i c].
  unfold cursor in Hk. simpl in *. inversion Hk. congruence.
Qed.

(** X1: a call of a grammar function that returns leaves the parser in
    the state it started from advanced by some number of [next_token]
    calls: the indentation counter is back at its value, and the tokens
    were consumed in order, none skipped and none put back. *)
Theorem successful_call_state (fuel : nat) (p p' : Parser) :
  (forall a,
      parse fuel p = Ret a p' \/ block fuel p = Ret a p' \/
      statement fuel p = Ret a p' \/ function_def fuel p = Ret a p' \/
      while_statement fuel p = Ret a p' \/
      assign_statement fuel p = Ret a p' \/
      function_call fuel p = Ret a p' \/ expr fuel p = Ret a p' \/
      term_plus_minus fuel p = Ret a p' \/ term_mul_div fuel p = Ret a p' \/
      factor fuel p = Ret a p' ->
      exists k, p' = Nat.iter k advanced p)
  /\
  (forall args,
      argument_list fuel p = Ret args p' ->
      exists k, p' = Nat.iter k advanced p).
Proof.
  destruct (frame_all fuel) as
    (H1 & H2 & H3 & H4 & H5 & H6 & H7 & H8 & H9 & H10 & H11 & H12 & H13
       & H14 & H15 & H16 & H17 & H18 & H19).
  split.
  - intros a H. unfold parse in H.
    repeat (destruct H as [H | H];
            [match goal with
             | F : framed ?f |- _ =>
                 match type of H with
                 | f _ = _ => destruct (F _ _ _ H)
                 end
             end; apply framed_advanced; assumption |]).
    destruct (H19 _ _ _ H). apply framed_advanced; assumption.
  - intros args H. destruct (H7 _ _ _ H). apply framed_advanced; assumption.
Qed.

(** ** Blocks and the top level *)

Lemma check_indent_mismatch p :
  indent p <> 0 ->
  type (current_token p) <> INDENT \/
  value (current_token p) <> VInt (indent p * INDENT_LENGTH) ->
  check_indent p = false.
Proof.
  intros Hi Hm. unfold check_indent. apply Z.eqb_neq in Hi. rewrite Hi.
  destruct Hm as [Ht | Hv].
  - apply String.eqb_neq in Ht. rewrite Ht. reflexivity.
  - destruct (String.eqb (type (current_token p)) INDENT); [| reflexivity].
    cbn [negb].
    assert (E : py_eq (VInt (indent p * INDENT_LENGTH))
                      (value (current_token p)) = false)
      by (apply py_eq_false; congruence).
    rewrite E. reflexivity.
Qed.

Lemma check_indent_match p :
  indent p = 0 \/
  (type (current_token p) = INDENT /\
   value (current_token p) = VInt (indent p * INDENT_LENGTH)) ->
  check_indent p = true.
Proof.
  intros [Hi | [Ht Hv]].
  - apply check_indent_top_level. exact Hi.
  - unfold check_indent. rewrite Ht, Hv.
    destruct (indent p =? 0); [reflexivity |].
    cbn [String.eqb Ascii.eqb Bool.eqb INDENT negb py_eq].
    rewrite Z.eqb_refl. reflexivity.
Qed.

Lemma Parser_init_indent l : indent (Parser_init l) = 0.
Proof. destruct l; reflexivity. Qed.

(** X2: [parse] returns no tree from the top level.  With the
    indentation counter at 0, as [Parser.__init__] sets it,
    [check_indent] holds, the loop condition of [block] reads
    [tokens.EOF], and [AttributeError] leaves [parse], whatever the
    tokens are. *)
Theorem parse_top_level (fuel : nat) :
  (3 <= fuel)%nat ->
  (forall p, indent p = 0 -> parse fuel p = Raise AttributeError)
  /\
  (forall l, parse fuel (Parser_init l) = Raise AttributeError).
Proof.
  intros Hf.
  assert (G : forall p, indent p = 0 -> parse fuel p = Raise AttributeError).
  { intros p Hi. unfold parse.
    apply program_fuel_raise with (n := 3%nat); [exact Hf |].
    apply program_entered, check_indent_top_level, Hi. }
  split; [exact G |].
  intros l. apply G, Parser_init_indent.
Qed.

(** X5: what [block] does.  Below the top level a current token that is
    not an indentation token of value [indent * INDENT_LENGTH] ends the
    block at once, without error: the block is empty and nothing is
    consumed.  At the top level, and on an indentation token of that
    value, the loop condition reads [tokens.EOF] and [block] raises
    [AttributeError], and so does [parse]: no block gets a child. *)
Theorem block_indentation (n : nat) (p : Parser) :
  (indent p <> 0 ->
   type (current_token p) <> INDENT \/
   value (current_token p) <> VInt (indent p * INDENT_LENGTH) ->
   block (S (S n)) p = Ret (Block []) p)
  /\
  (indent p = 0 \/
   (type (current_token p) = INDENT /\
    value (current_token p) = VInt (indent p * INDENT_LENGTH)) ->
   block (S (S n)) p = Raise AttributeError
   /\ parse (S (S (S n))) p = Raise AttributeError).
Proof.
  split.
  - intros Hi Hm. apply block_skipped, check_indent_mismatch; assumption.
  - intros Hm. apply check_indent_match in Hm. split.
    + apply block_entered, Hm.
    + unfold parse. apply program_entered, Hm.
Qed.

(** ** No [IndentationError] *)

Lemma bind_raise_inv {A B} (m : M A) (k : A -> M B) p e :
  bind m k p = Raise e ->
  m p = Raise e \/ exists a q, m p = Ret a q /\ k a q = Raise e.
Proof.
  unfold bind. destruct (m p) as [a q | e' |]; try discriminate.
  - eauto.
  - intros H. left. inversion H. reflexivity.
Qed.

Lemma eat_raises ty p e :
  eat ty p = Raise e -> e <> IndentationError.
Proof.
  unfold eat, bind, current.
  destruct (py_eq (VStr (type (current_token p))) ty).
  - rewrite advance_eq. discriminate.
  - unfold error. intros H. inversion H. discriminate.
Qed.

Lemma variable_raises p e : variable p = Raise e -> e <> IndentationError.
Proof.
  unfold variable, bind at 1, current. intros H.
  apply bind_raise_inv in H. destruct H as [H | (a & q & _ & H)].
  - eapply eat_raises; eassumption.
  - discriminate.
Qed.

Lemma empty_raises p e : empty p = Raise e -> e <> IndentationError.
Proof.
  unfold empty, bind at 1, current. intros H.
  apply bind_raise_inv in H. destruct H as [H | (a & q & _ & H)].
  - destruct (String.eqb (type (current_token p)) NEWLINE).
    + eapply eat_raises; eassumption.
    + discriminate.
  - discriminate.
Qed.

Lemma in_str_raises v hay p e :
  in_str v hay p = Raise e -> e <> IndentationError.
Proof.
  unfold in_str. destruct v; [discriminate |].
  unfold raise. intros H. inversion H. discriminate.
Qed.

Ltac crunch_raise :=
  repeat
    match goal with
    | H : bind _ _ _ = Raise _ |- _ =>
        let a := fresh "a" in
        let q := fresh "q" in
        let E := fresh "E" in
        apply bind_raise_inv in H; destruct H as [H | (a & q & E & H)]
    | H : ret _ _ = Raise _ |- _ => discriminate H
    | H : Ret _ _ = Raise _ |- _ => discriminate H
    | H : out_of_fuel _ = Raise _ |- _ => discriminate H
    | H : current _ = Raise _ |- _ => discriminate H
    | H : peek _ = Raise _ |- _ => discriminate H
    | H : add_indent _ _ = Raise _ |- _ => discriminate H
    | H : raise _ _ = Raise IndentationError |- _ => discriminate H
    | H : tokens_EOF _ = _ |- _ => discriminate H
    | H : delimiter_getitem _ _ = _ |- _ => discriminate H
    | H : keywords_getattr _ _ = _ |- _ => discriminate H
    | H : eat _ _ = Raise IndentationError |- _ =>
        exfalso; exact (eat_raises _ _ H eq_refl)
    | H : variable _ = Raise IndentationError |- _ =>
        exfalso; exact (variable_raises _ H eq_refl)
    | H : empty _ = Raise IndentationError |- _ =>
        exfalso; exact (empty_raises _ H eq_refl)
    | H : in_str _ _ _ = Raise IndentationError |- _ =>
        exfalso; exact (in_str_raises _ _ _ H eq_refl)
    | H : (if ?b then _ else _) _ = Raise _ |- _ => destruct b eqn:?
    | H : (if ?b then _ else _) = Raise _ |- _ => destruct b eqn:?
    | H : match ?x with Some _ => _ | None => _ end _ = Raise _ |- _ =>
        destruct x eqn:?
    | _ => progress read_state
    end.

Lemma quiet_all : forall n, quiet_at n.
Proof.
  induction n as [| n IH].
  - repeat split; intros; intros p H; discriminate.
  - destruct IH as
      (H1 & H2 & H3 & H4 & H5 & H6 & H7 & H8 & H9 & H10 & H11 & H12 & H13
         & H14 & H15 & H16 & H17 & H18 & H19).
    unfold quiet_at.
    repeat match goal with |- _ /\ _ => split end;
      intros; intros p H;
      cbn [program function_def block block_loop statement
           function_call argument_list argument_loop while_statement
           if_statement elif_statement assign_statement expr expr_loop
           term_plus_minus term_plus_minus_loop term_mul_div
           term_mul_div_loop factor] in H;
      crunch_raise.
    all: match goal with
         | Q : quiet (?f ?n), H : ?f ?n ?q = Raise IndentationError
           |- _ => exact (Q q H)
         | Q : forall r, quiet (?f ?n r),
           H : ?f ?n ?r ?q = Raise IndentationError
           |- _ => exact (Q r q H)
         end.
Qed.

(** X6: no function of the grammar raises [IndentationError].
    [eat_indent], the one place that raises it, is called in the loop of
    [block] only, after the read of [tokens.EOF] in the loop condition,
    and that read raises first: a wrong indentation is never reported as
    such, at the top level or below it. *)
Theorem no_indentation_error (fuel : nat) (p : Parser) :
  parse fuel p <> Raise IndentationError /\
  block fuel p <> Raise IndentationError /\
  statement fuel p <> Raise IndentationError /\
  function_def fuel p <> Raise IndentationError /\
  while_statement fuel p <> Raise IndentationError /\
  if_statement fuel p <> Raise IndentationError /\
  elif_statement fuel p <> Raise IndentationError /\
  assign_statement fuel p <> Raise IndentationError /\
  function_call fuel p <> Raise IndentationError /\
  expr fuel p <> Raise IndentationError.
Proof.
  destruct (quiet_all fuel) as
    (H1 & H2 & H3 & H4 & H5 & H6 & H7 & H8 & H9 & H10 & H11 & H12 & H13 & _).
  unfold parse.
  repeat split;
    match goal with
    | Q : quiet ?f |- ?f _ <> _ => exact (Q p)
    end.
Qed.

(** ** Chains of operators *)

Lemma parser_on_cons i t l : parser_on i (t :: l) = mkParser l i t.
Proof. reflexivity. Qed.

Lemma advanced_parser_on i t l :
  advanced (mkParser l i t) = parser_on i l.
Proof. reflexivity. Qed.

Lemma factor_number n p :
  type (current_token p) = NUMBER ->
  factor (S n) p = Ret (Num (current_token p)) (advanced p).
Proof.
  intros H. cbn [factor]. unfold bind at 1, current. rewrite H.
  change (is_substring NUMBER "+-") with false.
  change (String.eqb NUMBER NUMBER) with true. cbv iota.
  unfold bind. rewrite (eat_ok p H). reflexivity.
Qed.

Lemma term_mul_div_loop_exit n node p s :
  value (current_token p) = VStr s ->
  is_substring s "*/" = false ->
  term_mul_div_loop (S n) node p = Ret node p.
Proof.
  intros Ev H1. cbn [term_mul_div_loop]. unfold bind, current. rewrite Ev.
  unfold in_str, ret. rewrite H1. reflexivity.
Qed.

Lemma term_plus_minus_loop_exit n node p s :
  value (current_token p) = VStr s ->
  is_substring s "+-" = false ->
  term_plus_minus_loop (S n) node p = Ret node p.
Proof.
  intros Ev H1. cbn [term_plus_minus_loop]. unfold bind, current.
  rewrite Ev. unfold in_str, ret. rewrite H1. reflexivity.
Qed.

Lemma expr_loop_step n node p s right p1 :
  value (current_token p) = VStr s ->
  str_mem s operator = true ->
  type (current_token p) = s ->
  term_plus_minus n (advanced p) = Ret right p1 ->
  expr_loop (S n) node p = expr_loop n (Op node (current_token p) right) p1.
Proof.
  intros Ev Hs Et Hf.
  cbn [expr_loop]. unfold bind at 1. unfold current at 1.
  rewrite Ev. unfold in_operator. rewrite Hs.
  unfold bind at 1. rewrite (eat_ok p Et).
  unfold bind. rewrite Hf. reflexivity.
Qed.

(** An operand that is one number, in front of a token the loops of the
    levels below leave alone. *)
Lemma term_mul_div_number m i t nxt l s :
  is_number t = true ->
  value nxt = VStr s -> is_substring s "*/" = false ->
  term_mul_div (S (S m)) (mkParser (nxt :: l) i t)
  = Ret (Num t) (mkParser l i nxt).
Proof.
  intros Ht Ev Hs. apply String.eqb_eq in Ht.
  rewrite (@term_mul_div_eq (S m) _ (Num t) (mkParser l i nxt)).
  - eapply term_mul_div_loop_exit; eassumption.
  - rewrite factor_number by exact Ht. reflexivity.
Qed.

Lemma term_plus_minus_number m i t nxt l s :
  is_number t = true ->
  value nxt = VStr s ->
  is_substring s "*/" = false -> is_substring s "+-" = false ->
  term_plus_minus (S (S (S m))) (mkParser (nxt :: l) i t)
  = Ret (Num t) (mkParser l i nxt).
Proof.
  intros Ht Ev H1 H2.
  rewrite (@term_plus_minus_eq (S (S m)) _ (Num t) (mkParser l i nxt)).
  - eapply term_plus_minus_loop_exit; eassumption.
  - eapply term_mul_div_number; eassumption.
Qed.

Lemma expr_number m i t nxt l :
  is_number t = true ->
  ends_expression nxt = true ->
  expr (S (S (S (S m)))) (mkParser (nxt :: l) i t)
  = Ret (Num t) (mkParser l i nxt).
Proof.
  intros Ht Hs.
  destruct (ends_expression_inv _ Hs) as (s & Ev & H1 & H2 & H3).
  rewrite (@expr_eq (S (S (S m))) _ (Num t) (mkParser l i nxt)).
  - apply expr_loop_stop. exact Hs.
  - eapply term_plus_minus_number; eassumption.
Qed.

Lemma additive_op_inv t :
  additive_op t = true ->
  exists s, value t = VStr s /\ is_substring s "+-" = true /\
            is_substring s "*/" = false.
Proof.
  unfold additive_op. destruct (value t) as [s | z]; [| discriminate].
  intros H. apply andb_true_iff in H. destruct H as [H1 H2].
  apply negb_true_iff in H2. eauto.
Qed.

Lemma multiplicative_op_inv t :
  multiplicative_op t = true ->
  exists s, value t = VStr s /\ is_substring s "*/" = true /\ type t = s.
Proof.
  unfold multiplicative_op. destruct (value t) as [s | z]; [| discriminate].
  intros H. apply andb_true_iff in H. destruct H as [H1 H2].
  apply String.eqb_eq in H2. eauto.
Qed.

Lemma comparison_op_inv t :
  comparison_op t = true ->
  exists s, value t = VStr s /\ str_mem s operator = true /\ type t = s /\
            is_substring s "+-" = false /\ is_substring s "*/" = false.
Proof.
  unfold comparison_op. destruct (value t) as [s | z]; [| discriminate].
  intros H. repeat (apply andb_true_iff in H; destruct H as [H ?]).
  repeat match goal with
         | E : negb _ = true |- _ => apply negb_true_iff in E
         | E : String.eqb _ _ = true |- _ => apply String.eqb_eq in E
         end.
  eauto 8.
Qed.

Lemma op_tokens_cons o t ops :
  op_tokens ((o, t) :: ops) = o :: t :: op_tokens ops.
Proof. reflexivity. Qed.

(** The first token after an operand of a chain. *)
Lemma chain_head (P : Token -> bool) (ops : list (Token * Token))
      (stop : Token) (rest : list Token) :
  Forall (fun x => P (fst x) = true /\ is_number (snd x) = true) ops ->
  exists h l, (op_tokens ops ++ stop :: rest)%list = h :: l /\
              (P h = true \/ h = stop).
Proof.
  intros F. destruct ops as [| [o t] ops]; simpl.
  - eauto.
  - inversion F; subst. simpl in *. exists o. eexists. split; [reflexivity |].
    left. tauto.
Qed.

Lemma multiplicative_loop ops :
  forall acc i o l,
    Forall (fun x => multiplicative_op (fst x) = true /\
                     is_number (snd x) = true) ops ->
    forall (stop : Token) (rest : list Token),
      ends_expression stop = true ->
      o :: l = (op_tokens ops ++ stop :: rest)%list ->
      term_mul_div_loop (S (length ops)) acc (mkParser l i o)
      = Ret (fold_ops acc ops) (mkParser rest i stop).
Proof.
  induction ops as [| [op t] ops IH]; intros acc i o l F stop rest Hs E.
  - simpl in E. inversion E; subst. apply term_mul_div_loop_stop. exact Hs.
  - rewrite op_tokens_cons in E. cbn [app] in E. inversion E; subst.
    inversion F as [| ? ? [Ho Ht] F']; subst.
    cbn [fst snd] in Ho, Ht.
    destruct (multiplicative_op_inv _ Ho) as (s & Ev & Hm & Ety).
    destruct (chain_head multiplicative_op stop rest F')
      as (h & l' & El & _).
    rewrite El.
    cbn [length].
    rewrite (@term_mul_div_loop_step (S (length ops)) acc _ s (Num t)
               (mkParser l' i h)); [| exact Ev | exact Hm | exact Ety |].
    + cbn [fold_ops fold_left fst snd current_token].
      apply (IH _ i h l' F' stop rest Hs). symmetry. exact El.
    + cbn [advanced lexer indent current_token next_token fst snd].
      rewrite factor_number by (apply String.eqb_eq; exact Ht).
      reflexivity.
Qed.


Lemma additive_loop ops :
  forall acc i o l,
    Forall (fun x => additive_op (fst x) = true /\
                     is_number (snd x) = true) ops ->
    forall (stop : Token) (rest : list Token),
      ends_expression stop = true ->
      o :: l = (op_tokens ops ++ stop :: rest)%list ->
      term_plus_minus_loop (S (S (length ops))) acc (mkParser l i o)
      = Ret (fold_ops acc ops) (mkParser rest i stop).
Proof.
  induction ops as [| [op t] ops IH]; intros acc i o l F stop rest Hs E.
  - simpl in E. inversion E; subst. apply term_plus_minus_loop_stop.
    exact Hs.
  - rewrite op_tokens_cons in E. cbn [app] in E. inversion E; subst.
    inversion F as [| ? ? [Ho Ht] F']; subst.
    cbn [fst snd] in Ho, Ht.
    destruct (additive_op_inv _ Ho) as (s & Ev & Ha & _).
    destruct (chain_head additive_op stop rest F') as (h & l' & El & Hh).
    rewrite El.
    cbn [length].
    rewrite (@term_plus_minus_loop_step (S (S (length ops))) acc _ s (Num t)
               (mkParser l' i h)); [| exact Ev | exact Ha |].
    + cbn [fold_ops fold_left fst snd current_token].
      apply (IH _ i h l' F' stop rest Hs). symmetry. exact El.
    + cbn [advanced lexer indent current_token next_token fst snd].
      destruct Hh as [Hh | Hh].
      * destruct (additive_op_inv _ Hh) as (s' & Ev' & _ & Hm').
        eapply term_mul_div_number; eassumption.
      * subst h.
        destruct (ends_expression_inv _ Hs) as (s' & Ev' & Hm' & _).
        eapply term_mul_div_number; eassumption.
Qed.

Lemma comparison_loop ops :
  forall acc i o l,
    Forall (fun x => comparison_op (fst x) = true /\
                     is_number (snd x) = true) ops ->
    forall (stop : Token) (rest : list Token),
      ends_expression stop = true ->
      o :: l = (op_tokens ops ++ stop :: rest)%list ->
      expr_loop (S (S (S (length ops)))) acc (mkParser l i o)
      = Ret (fold_ops acc ops) (mkParser rest i stop).
Proof.
  induction ops as [| [op t] ops IH]; intros acc i o l F stop rest Hs E.
  - simpl in E. inversion E; subst. apply expr_loop_stop. exact Hs.
  - rewrite op_tokens_cons in E. cbn [app] in E. inversion E; subst.
    inversion F as [| ? ? [Ho Ht] F']; subst.
    cbn [fst snd] in Ho, Ht.
    destruct (comparison_op_inv _ Ho) as (s & Ev & Hop & Ety & _).
    destruct (chain_head comparison_op stop rest F') as (h & l' & El & Hh).
    rewrite El.
    cbn [length].
    rewrite (@expr_loop_step (S (S (S (length ops)))) acc _ s (Num t)
               (mkParser l' i h)); [| exact Ev | exact Hop | exact Ety |].
    + cbn [fold_ops fold_left fst snd current_token].
      apply (IH _ i h l' F' stop rest Hs). symmetry. exact El.
    + cbn [advanced lexer indent current_token next_token fst snd].
      destruct Hh as [Hh | Hh].
      * destruct (comparison_op_inv _ Hh) as (s' & Ev' & _ & _ & Ha' & Hm').
        eapply term_plus_minus_number; eassumption.
      * subst h.
        destruct (ends_expression_inv _ Hs) as (s' & Ev' & Hm' & Ha' & _).
        eapply term_plus_minus_number; eassumption.
Qed.

Lemma term_mul_div_fuel n m p a p' :
  (n <= m)%nat -> term_mul_div n p = Ret a p' -> term_mul_div m p = Ret a p'.
Proof. intros L; apply refines_ret, (fuel_mono_all L). Qed.

Lemma term_plus_minus_fuel n m p a p' :
  (n <= m)%nat ->
  term_plus_minus n p = Ret a p' -> term_plus_minus m p = Ret a p'.
Proof. intros L; apply refines_ret, (fuel_mono_all L). Qed.

(** X7: the multiplicative level is left-associative for chains of any
    length.  On a number followed by operators whose value is found in
    ['*/'] and is the type of the token, each followed by a number,
    [term_mul_div] returns the operators applied from the left,
    [((1 * 2) / 3) * 4], and stops on the token that follows. *)
Theorem multiplicative_chain
        (fuel : nat) (i : Z) (first : Token) (ops : list (Token * Token))
        (stop : Token) (rest : list Token) :
  is_number first = true ->
  Forall (fun x => multiplicative_op (fst x) = true /\
                   is_number (snd x) = true) ops ->
  ends_expression stop = true ->
  (length ops + 2 <= fuel)%nat ->
  term_mul_div fuel (parser_on i (first :: op_tokens ops ++ stop :: rest))
  = Ret (fold_ops (Num first) ops) (parser_on i (stop :: rest)).
Proof.
  intros Hn F Hs Hf.
  apply term_mul_div_fuel with (n := S (S (length ops))); [lia |].
  rewrite !parser_on_cons.
  destruct (chain_head multiplicative_op stop rest F) as (h & l' & El & _).
  rewrite El.
  rewrite (@term_mul_div_eq (S (length ops)) _ (Num first)
             (mkParser l' i h)).
  - apply multiplicative_loop; [exact F | exact Hs | symmetry; exact El].
  - rewrite factor_number by (apply String.eqb_eq; exact Hn). reflexivity.
Qed.

(** X8: the additive level is left-associative for chains of any length,
    and takes its operator whatever the type of the token.  On a number
    followed by operators whose value is found in ['+-'], each followed by
    a number, [term_plus_minus] returns the operators applied from the
    left, [((1 - 2) + 3) - 4], and stops on the token that follows. *)
Theorem additive_chain
        (fuel : nat) (i : Z) (first : Token) (ops : list (Token * Token))
        (stop : Token) (rest : list Token) :
  is_number first = true ->
  Forall (fun x => additive_op (fst x) = true /\
                   is_number (snd x) = true) ops ->
  ends_expression stop = true ->
  (length ops + 3 <= fuel)%nat ->
  term_plus_minus fuel (parser_on i (first :: op_tokens ops ++ stop :: rest))
  = Ret (fold_ops (Num first) ops) (parser_on i (stop :: rest)).
Proof.
  intros Hn F Hs Hf.
  apply term_plus_minus_fuel with (n := S (S (S (length ops)))); [lia |].
  rewrite !parser_on_cons.
  destruct (chain_head additive_op stop rest F) as (h & l' & El & Hh).
  rewrite El.
  rewrite (@term_plus_minus_eq (S (S (length ops))) _ (Num first)
             (mkParser l' i h)).
  - apply additive_loop; [exact F | exact Hs | symmetry; exact El].
  - destruct Hh as [Hh | Hh].
    + destruct (additive_op_inv _ Hh) as (s' & Ev' & _ & Hm').
      eapply term_mul_div_number; eassumption.
    + subst h.
      destruct (ends_expression_inv _ Hs) as (s' & Ev' & Hm' & _).
      eapply term_mul_div_number; eassumption.
Qed.

(** X9: every member of [tokens.operator] that the two arithmetic levels
    leave alone is folded by [expr] at the lowest precedence and from the
    left: comparisons chain as [(1 < 2) < 3], and [**], [//], [%], the
    shifts and the bit operators are applied like comparisons,
    [(2 ** 3) ** 2].  The operator is matched by comparing the type of
    the token with its value. *)
Theorem comparison_chain
        (fuel : nat) (i : Z) (first : Token) (ops : list (Token * Token))
        (stop : Token) (rest : list Token) :
  is_number first = true ->
  Forall (fun x => comparison_op (fst x) = true /\
                   is_number (snd x) = true) ops ->
  ends_expression stop = true ->
  (length ops + 4 <= fuel)%nat ->
  expr fuel (parser_on i (first :: op_tokens ops ++ stop :: rest))
  = Ret (fold_ops (Num first) ops) (parser_on i (stop :: rest)).
Proof.
  intros Hn F Hs Hf.
  apply expr_fuel with (n := S (S (S (S (length ops))))); [lia |].
  rewrite !parser_on_cons.
  destruct (chain_head comparison_op stop rest F) as (h & l' & El & Hh).
  rewrite El.
  rewrite (@expr_eq (S (S (S (length ops)))) _ (Num first)
             (mkParser l' i h)).
  - apply comparison_loop; [exact F | exact Hs | symmetry; exact El].
  - destruct Hh as [Hh | Hh].
    + destruct (comparison_op_inv _ Hh) as (s' & Ev' & _ & _ & Ha' & Hm').
      eapply term_plus_minus_number; eassumption.
    + subst h.
      destruct (ends_expression_inv _ Hs) as (s' & Ev' & Hm' & Ha' & _).
      eapply term_plus_minus_number; eassumption.
Qed.

Lemma factor_sign n p :
  sign_token (current_token p) = true ->
  factor (S n) p
  = (e <- factor n ;; ret (UnaryOp (current_token p) e)) (advanced p).
Proof.
  unfold sign_token. intros H.
  cbn [factor]. unfold bind at 1, current.
  destruct (String.eqb_spec (type (current_token p)) "+") as [Ep | Ep].
  - rewrite Ep. change (is_substring "+" "+-") with true. cbv iota.
    unfold bind at 1. rewrite (eat_ok p Ep). reflexivity.
  - cbn [orb] in H. apply andb_true_iff in H. destruct H as [Em Ev].
    apply String.eqb_eq in Em. rewrite Em.
    change (is_substring "-" "+-") with true. cbv iota.
    rewrite Ev.
    unfold bind at 1. rewrite (eat_ok p Em). reflexivity.
Qed.

(** X10: prefix signs nest to any depth.  On [k] sign tokens followed by
    a number, [factor] returns [k] nested [UnaryOp] nodes, the first sign
    outermost, around the [Num] node, and consumes exactly these
    [k + 1] tokens. *)
Theorem unary_chain
        (fuel : nat) (i : Z) (signs : list Token) (num : Token)
        (rest : list Token) :
  Forall (fun t => sign_token t = true) signs ->
  is_number num = true ->
  (length signs + 1 <= fuel)%nat ->
  factor fuel (parser_on i (signs ++ num :: rest))
  = Ret (fold_right UnaryOp (Num num) signs) (parser_on i rest).
Proof.
  intros F Hn Hf.
  apply factor_fuel with (n := S (length signs)); [lia |]. clear Hf.
  induction signs as [| s signs IH].
  - cbn [app length fold_right]. rewrite parser_on_cons.
    rewrite factor_number by (apply String.eqb_eq; exact Hn). reflexivity.
  - inversion F; subst.
    cbn [app length fold_right]. rewrite parser_on_cons.
    rewrite factor_sign by assumption.
    rewrite advanced_parser_on. unfold bind.
    rewrite IH by assumption. reflexivity.
Qed.


(** ** Argument lists *)

Local Open Scope list_scope.

Lemma comma_token_inv t :
  comma_token t = true -> type t = "," /\ value t = VStr ",".
Proof.
  unfold comma_token. intros H. apply andb_true_iff in H.
  destruct H as [H1 H2]. apply String.eqb_eq in H1. apply py_eq_true in H2.
  auto.
Qed.

Lemma comma_ends_expression t :
  comma_token t = true -> ends_expression t = true.
Proof.
  intros H. destruct (comma_token_inv _ H) as [_ Hv].
  unfold ends_expression. rewrite Hv. reflexivity.
Qed.

Lemma rparen_ends_expression t :
  value t = VStr ")" -> ends_expression t = true.
Proof. intros Hv. unfold ends_expression. rewrite Hv. reflexivity. Qed.

Lemma argument_loop_run more :
  forall acc i o l,
    Forall (fun x => comma_token (fst x) = true /\
                     is_number (snd x) = true) more ->
    forall (rp : Token) (rest : list Token),
      value rp = VStr ")" ->
      o :: l = (op_tokens more ++ rp :: rest)%list ->
      argument_loop (length more + 5) acc (mkParser l i o)
      = Ret (acc ++ map (fun x => Num (snd x)) more) (mkParser rest i rp).
Proof.
  induction more as [| [c a] more IH]; intros acc i o l F rp rest Hr E.
  - simpl in E. inversion E; subst.
    cbn [length Nat.add argument_loop map]. unfold bind, current.
    cbn [current_token]. rewrite Hr. rewrite app_nil_r. reflexivity.
  - rewrite op_tokens_cons in E. cbn [app] in E. inversion E; subst.
    inversion F as [| ? ? [Hc Ha] F']; subst. cbn [fst snd] in Hc, Ha.
    destruct (comma_token_inv _ Hc) as [Ct Cv].
    destruct (chain_head comma_token rp rest F') as (h & l' & El & Hh).
    rewrite El.
    cbn [length Nat.add argument_loop]. unfold bind at 1, current.
    cbn [current_token]. rewrite Cv.
    cbn [py_eq String.eqb Ascii.eqb Bool.eqb].
    unfold bind at 1.
    rewrite (eat_ok (mkParser (a :: h :: l') i c) Ct).
    rewrite advanced_parser_on, parser_on_cons.
    unfold bind at 1.
    assert (He : ends_expression h = true).
    { destruct Hh as [Hh | Hh]; [apply comma_ends_expression, Hh |].
      subst h. apply rparen_ends_expression, Hr. }
    replace (length more + 5)%nat
      with (S (S (S (S (S (length more)))))) by lia.
    rewrite (@expr_number (S (length more)) i a h l' Ha He).
    replace (S (S (S (S (S (length more)))))) with (length more + 5)%nat
      by lia.
    rewrite (IH (acc ++ [Num a]) i h l' F' rp rest Hr (eq_sym El)).
    cbn [map snd]. rewrite <- app_assoc. reflexivity.
Qed.

Lemma argument_list_run i lp first more rp rest :
  type lp = "(" ->
  is_number first = true ->
  value first <> VStr ")" ->
  Forall (fun x => comma_token (fst x) = true /\
                   is_number (snd x) = true) more ->
  type rp = ")" -> value rp = VStr ")" ->
  argument_list (length more + 6)
    (parser_on i (lp :: first :: op_tokens more ++ rp :: rest))
  = Ret (map Num (first :: map snd more)) (parser_on i rest).
Proof.
  intros Hl Hn Hv F Hrt Hrv.
  rewrite parser_on_cons.
  destruct (chain_head comma_token rp rest F) as (h & l' & El & Hh).
  rewrite El.
  replace (length more + 6)%nat with (S (length more + 5)) by lia.
  cbn [argument_list]. unfold bind at 1.
  rewrite (eat_ok (mkParser (first :: h :: l') i lp) Hl).
  rewrite advanced_parser_on, parser_on_cons.
  unfold bind at 1, current. cbn [current_token].
  apply py_eq_false in Hv. rewrite Hv. cbn [negb].
  unfold bind at 1. unfold bind at 1.
  assert (He : ends_expression h = true).
  { destruct Hh as [Hh | Hh]; [apply comma_ends_expression, Hh |].
    subst h. apply rparen_ends_expression, Hrv. }
  replace (length more + 5)%nat
    with (S (S (S (S (S (length more)))))) by lia.
  rewrite (@expr_number (S (length more)) i first h l' Hn He).
  replace (S (S (S (S (S (length more)))))) with (length more + 5)%nat
    by lia.
  rewrite (argument_loop_run [Num first] i F rp rest Hrv (eq_sym El)).
  unfold bind at 1.
  rewrite (eat_ok (mkParser rest i rp) Hrt).
  cbn [app map]. rewrite map_map. reflexivity.
Qed.

Lemma argument_list_fuel n m p a p' :
  (n <= m)%nat ->
  argument_list n p = Ret a p' -> argument_list m p = Ret a p'.
Proof. intros L; apply refines_ret, (fuel_mono_all L). Qed.

(** X11: an argument list keeps the number and the order of its
    arguments.  On ['('], numbers separated by commas, and [')'],
    [argument_list] returns the [Num] nodes of the numbers in source order
    and consumes the tokens up to and including the [')']; on ['('] [')']
    it returns the empty list. *)
Theorem argument_list_order
        (fuel : nat) (i : Z) (lp first : Token)
        (more : list (Token * Token)) (rp : Token) (rest : list Token) :
  type lp = "(" ->
  type rp = ")" -> value rp = VStr ")" ->
  (length more + 6 <= fuel)%nat ->
  (is_number first = true ->
   value first <> VStr ")" ->
   Forall (fun x => comma_token (fst x) = true /\
                    is_number (snd x) = true) more ->
   argument_list fuel
     (parser_on i (lp :: first :: op_tokens more ++ rp :: rest))
   = Ret (map Num (first :: map snd more)) (parser_on i rest))
  /\
  argument_list fuel (parser_on i (lp :: rp :: rest))
  = Ret [] (parser_on i rest).
Proof.
  intros Hl Hrt Hrv Hf. split.
  - intros Hn Hv F.
    apply argument_list_fuel with (n := (length more + 6)%nat);
      [exact Hf |].
    apply argument_list_run; assumption.
  - apply argument_list_fuel with (n := 1%nat); [lia |].
    rewrite parser_on_cons. cbn [argument_list]. unfold bind at 1.
    rewrite (eat_ok (mkParser (rp :: rest) i lp) Hl).
    rewrite advanced_parser_on, parser_on_cons.
    unfold bind at 1, current. cbn [current_token]. rewrite Hrv.
    cbn [py_eq String.eqb Ascii.eqb Bool.eqb negb].
    unfold bind at 1. unfold ret at 1. unfold bind at 1.
    rewrite (eat_ok (mkParser rest i rp) Hrt). reflexivity.
Qed.

(** ** Crashes of the expression functions *)

Lemma factor_fuel_raise n m p e :
  (n <= m)%nat -> factor n p = Raise e -> factor m p = Raise e.
Proof. intros L; apply refines_raise, (fuel_mono_all L). Qed.

Lemma term_mul_div_fuel_raise n m p e :
  (n <= m)%nat -> term_mul_div n p = Raise e -> term_mul_div m p = Raise e.
Proof. intros L; apply refines_raise, (fuel_mono_all L). Qed.

Lemma expr_fuel_raise n m p e :
  (n <= m)%nat -> expr n p = Raise e -> expr m p = Raise e.
Proof. intros L; apply refines_raise, (fuel_mono_all L). Qed.

Lemma assign_statement_fuel_raise n m p e :
  (n <= m)%nat ->
  assign_statement n p = Raise e -> assign_statement m p = Raise e.
Proof. intros L; apply refines_raise, (fuel_mono_all L). Qed.

Lemma factor_identifier_at_end n p :
  type (current_token p) = ID -> lexer p = [] ->
  factor (S n) p = Raise AttributeError.
Proof.
  intros Ht Hl. cbn [factor]. unfold bind at 1, current. rewrite Ht.
  change (is_substring ID "+-") with false.
  change (String.eqb ID NUMBER) with false.
  change (String.eqb ID ID) with true. cbv iota.
  unfold bind, peek. rewrite Hl. reflexivity.
Qed.

Lemma expr_of_factor_raise n p e :
  factor (S n) p = Raise e -> expr (S (S (S (S n)))) p = Raise e.
Proof.
  intros H. cbn [expr term_plus_minus term_mul_div]. unfold bind.
  rewrite H. reflexivity.
Qed.

(** X13: an identifier that is the last token the lexer has crashes the
    expression functions.  [factor] reads [self.lexer.peek_token().type]
    without the test for [None] that [statement] makes, so with an
    identifier as current token and no token left it raises
    [AttributeError]; so do [expr], and [assign_statement] on an
    assignment whose right-hand side is that identifier. *)
Theorem identifier_at_end_of_input
        (fuel : nat) (i : Z) (x : Token) :
  type x = ID ->
  (1 <= fuel -> factor fuel (parser_on i [x]) = Raise AttributeError)%nat
  /\
  (4 <= fuel -> expr fuel (parser_on i [x]) = Raise AttributeError)%nat
  /\
  (forall target eq,
      type target = ID -> type eq = "=" ->
      (5 <= fuel)%nat ->
      assign_statement fuel (parser_on i [target; eq; x])
      = Raise AttributeError).
Proof.
  intros Hx.
  assert (F : forall n, factor (S n) (parser_on i [x]) = Raise AttributeError)
    by (intros n; apply factor_identifier_at_end; [exact Hx | reflexivity]).
  split; [| split].
  - intros Hf. apply factor_fuel_raise with (n := 1%nat); [exact Hf |].
    apply F.
  - intros Hf. apply expr_fuel_raise with (n := 4%nat); [exact Hf |].
    apply expr_of_factor_raise, F.
  - intros target eq Ht Het Hf.
    apply assign_statement_fuel_raise with (n := 5%nat); [exact Hf |].
    rewrite parser_on_cons.
    cbn [assign_statement]. unfold bind at 1.
    unfold variable at 1. unfold bind at 1, current. unfold bind at 1.
    rewrite (eat_ok (mkParser [eq; x] i target) Ht).
    rewrite advanced_parser_on, parser_on_cons.
    unfold ret at 1. unfold bind at 1. unfold bind at 1.
    rewrite (eat_ok (mkParser [x] i eq) Het).
    rewrite advanced_parser_on. unfold bind at 1.
    rewrite (@expr_of_factor_raise _ _ _ (F 0%nat)). reflexivity.
Qed.

Lemma term_mul_div_loop_int n node p z :
  value (current_token p) = VInt z ->
  term_mul_div_loop (S n) node p = Raise TypeError.
Proof.
  intros Hv. cbn [term_mul_div_loop]. unfold bind, current. rewrite Hv.
  reflexivity.
Qed.

Lemma expr_of_term_mul_div_raise n p e :
  term_mul_div (S n) p = Raise e -> expr (S (S (S n))) p = Raise e.
Proof.
  intros H. cbn [expr term_plus_minus]. unfold bind. rewrite H.
  reflexivity.
Qed.

(** X14: a token that carries an [int] stops an expression with
    [TypeError], not with the unexpected-token exception.  The loops test
    [value in '*/'], which Python refuses for an [int]: [term_mul_div] and
    [expr] raise [TypeError] on a number followed by such a token, and on
    an indentation token itself, for which [factor] has returned
    [None]. *)
Theorem int_valued_token
        (fuel : nat) (i : Z) (t nxt : Token) (l : list Token) (z : Z) :
  value nxt = VInt z ->
  (is_number t = true ->
   ((2 <= fuel)%nat ->
    term_mul_div fuel (parser_on i (t :: nxt :: l)) = Raise TypeError)
   /\
   ((4 <= fuel)%nat ->
    expr fuel (parser_on i (t :: nxt :: l)) = Raise TypeError))
  /\
  (type nxt = INDENT ->
   (4 <= fuel)%nat ->
   expr fuel (parser_on i (nxt :: l)) = Raise TypeError).
Proof.
  intros Hv. split.
  - intros Hn. apply String.eqb_eq in Hn.
    assert (T : forall n, term_mul_div (S (S n)) (parser_on i (t :: nxt :: l))
                          = Raise TypeError).
    { intros n. rewrite parser_on_cons.
      rewrite (@term_mul_div_eq (S n) _ (Num t) (mkParser l i nxt)).
      - eapply term_mul_div_loop_int. exact Hv.
      - rewrite factor_number by exact Hn. reflexivity. }
    split; intros Hf.
    + apply term_mul_div_fuel_raise with (n := 2%nat); [exact Hf | apply T].
    + apply expr_fuel_raise with (n := 4%nat); [exact Hf |].
      apply expr_of_term_mul_div_raise, T.
  - intros Ht Hf.
    apply expr_fuel_raise with (n := 4%nat); [exact Hf |].
    apply expr_of_term_mul_div_raise.
    rewrite parser_on_cons.
    rewrite (@term_mul_div_eq 1 _ PyNone (mkParser l i nxt)).
    + eapply term_mul_div_loop_int. exact Hv.
    + apply factor_falls_through; cbn [current_token]; rewrite Ht.
      * reflexivity.
      * simpl. intuition discriminate.
Qed.

(** X15: the multiplicative loop and the loop of [expr] consume their
    operator with [eat(value)], which compares the type of the token with
    its own value.  After a number, a token whose value is an operator of
    these levels and whose type is another string, the kind ['operator']
    for instance, makes them raise the unexpected-token exception that
    names this token and expects its value. *)
Theorem operator_type_mismatch
        (fuel : nat) (i : Z) (t op : Token) (l : list Token) (s : string) :
  is_number t = true ->
  value op = VStr s ->
  type op <> s ->
  s <> "" ->
  (is_substring s "*/" = true ->
   (2 <= fuel)%nat ->
   term_mul_div fuel (parser_on i (t :: op :: l))
   = Raise (PyException op (Some (VStr s))))
  /\
  (is_substring s "*/" = false ->
   is_substring s "+-" = false ->
   str_mem s operator = true ->
   (4 <= fuel)%nat ->
   expr fuel (parser_on i (t :: op :: l))
   = Raise (PyException op (Some (VStr s)))).
Proof.
  intros Hn Hv Ht Hs.
  assert (E : eat (VStr s) (mkParser l i op)
              = Raise (PyException op (Some (VStr s)))).
  { rewrite (eat_fail (mkParser l i op) Ht). cbn [current_token truthy].
    apply String.eqb_neq in Hs. rewrite Hs. reflexivity. }
  split.
  - intros Hm Hf.
    apply term_mul_div_fuel_raise with (n := 2%nat); [exact Hf |].
    rewrite parser_on_cons.
    rewrite (@term_mul_div_eq 1 _ (Num t) (mkParser l i op))
      by (rewrite factor_number by (apply String.eqb_eq; exact Hn);
          reflexivity).
    cbn [term_mul_div_loop]. unfold bind at 1, current. cbn [current_token].
    rewrite Hv. unfold bind at 1, in_str, ret. rewrite Hm.
    unfold bind. rewrite E. reflexivity.
  - intros Hm Ha Ho Hf.
    apply expr_fuel_raise with (n := 4%nat); [exact Hf |].
    rewrite parser_on_cons.
    rewrite (@expr_eq 3 _ (Num t) (mkParser l i op))
      by (eapply term_plus_minus_number; eassumption).
    cbn [expr_loop]. unfold bind at 1, current. cbn [current_token].
    rewrite Hv. unfold in_operator. rewrite Ho.
    unfold bind. rewrite E. reflexivity.
Qed.


(** ** What [statement] can do *)

(** X16: [statement] dispatches no production.  On a token that is not an
    identifier it reads [tokens.keywords.IF] first and raises
    [AttributeError], so an [if], a [while] and a [def] line are never
    handed to their functions; when it returns, the current token is an
    identifier without lookahead, the node is [EmptyOp] and nothing was
    consumed; and the only exceptions that leave it are [TypeError] and
    [AttributeError]. *)
Theorem statement_outcomes (n : nat) (p : Parser) :
  (type (current_token p) <> ID ->
   statement (S n) p = Raise AttributeError)
  /\
  (forall a p',
      statement (S n) p = Ret a p' ->
      a = EmptyOp /\ p' = p /\
      type (current_token p) = ID /\ peek_token (lexer p) = None)
  /\
  (forall e,
      statement (S n) p = Raise e -> e = TypeError \/ e = AttributeError).
Proof.
  split; [| split].
  - apply statement_not_identifier.
  - intros a p'. apply statement_returns.
  - intros e.
    destruct (String.eqb_spec (type (current_token p)) ID) as [Hid | Hid].
    + destruct (peek_token (lexer p)) as [nxt |] eqn:Hp.
      * rewrite (statement_lookahead n p Hid Hp).
        intros H. inversion H. auto.
      * rewrite (statement_alone n p Hid Hp). discriminate.
    + rewrite (statement_not_identifier n p Hid).
      intros H. inversion H. auto.
Qed.

(** ** The keyword classifier and the interpreter *)

(** X17: [iskeyword] answers [True] exactly on the members of
    [tokens.keywords], whatever [keyword.kwlist] is, and it never raises
    exactly when every word of [keyword.kwlist] is in [tokens.keywords],
    as under Python 3.6, whose 33 reserved words are the set. *)
Theorem iskeyword_never_raises (kwlist : list string) :
  (forall s, iskeyword kwlist s = KwReturn true <-> In s keywords)
  /\
  ((forall s, exists b, iskeyword kwlist s = KwReturn b)
   <-> incl kwlist keywords).
Proof.
  split.
  - intros s. unfold iskeyword.
    destruct (str_mem s keywords) eqn:K.
    + apply str_mem_In in K. tauto.
    + apply str_mem_not_In in K.
      destruct (str_mem s kwlist); split; intros H;
        try discriminate; contradiction.
  - split.
    + intros H s Hs. destruct (H s) as [b Hb]. unfold iskeyword in Hb.
      destruct (str_mem s keywords) eqn:K; [apply str_mem_In, K |].
      apply str_mem_In in Hs. rewrite Hs in Hb. discriminate.
    + intros H s. unfold iskeyword.
      destruct (str_mem s keywords) eqn:K; [eauto |].
      destruct (str_mem s kwlist) eqn:L; [| eauto].
      apply str_mem_In in L. apply H in L. apply str_mem_In in L.
      congruence.
Qed.

(** ** Function definitions *)

Lemma function_def_fuel n m p a p' :
  (n <= m)%nat -> function_def n p = Ret a p' -> function_def m p = Ret a p'.
Proof. intros L; apply refines_ret, (fuel_mono_all L). Qed.

(** X18: [function_def] parses its parameters with [argument_list], so
    number literals are accepted as parameters, and it accepts a body
    without statements.  On [def], a name, a parenthesised list of
    numbers, [':'] and a newline, followed by a token that does not open
    the body one level deeper, it returns a [FunctionDef] with the [Num]
    nodes as parameters and an empty [Block], with the indentation
    counter restored. *)
Theorem function_def_literal_parameters
        (fuel : nat) (i : Z) (kw name lp first : Token)
        (more : list (Token * Token)) (rp colon nl nxt : Token)
        (rest : list Token) :
  type kw = "def" -> type name = ID -> type lp = "(" ->
  is_number first = true -> value first <> VStr ")" ->
  Forall (fun x => comma_token (fst x) = true /\
                   is_number (snd x) = true) more ->
  type rp = ")" -> value rp = VStr ")" ->
  type colon = ":" -> type nl = NEWLINE ->
  i + 1 <> 0 ->
  type nxt <> INDENT \/ value nxt <> VInt ((i + 1) * INDENT_LENGTH) ->
  (length more + 7 <= fuel)%nat ->
  function_def fuel
    (parser_on i
       (kw :: name :: lp :: first
        :: op_tokens more ++ rp :: colon :: nl :: nxt :: rest))
  = Ret (FunctionDef (Var name) (map Num (first :: map snd more))
                     (Block []))
        (parser_on i (nxt :: rest)).
Proof.
  intros Hk Hname Hl Hn Hv F Hrt Hrv Hc Hnl Hi Hm Hf.
  apply function_def_fuel with (n := S (length more + 6)); [lia |].
  rewrite parser_on_cons. cbn [function_def].
  unfold bind at 1. rewrite eat_ok by exact Hk.
  rewrite advanced_parser_on, parser_on_cons.
  unfold bind at 1. unfold variable at 1. unfold bind at 1, current.
  unfold bind at 1. rewrite eat_ok by exact Hname.
  rewrite advanced_parser_on. unfold ret at 1.
  unfold bind at 1.
  rewrite (@argument_list_run i lp first more rp
             (colon :: nl :: nxt :: rest) Hl Hn Hv F Hrt Hrv).
  rewrite parser_on_cons.
  unfold bind at 1. rewrite eat_ok by exact Hc.
  rewrite advanced_parser_on, parser_on_cons.
  unfold bind at 1. rewrite eat_ok by exact Hnl.
  rewrite advanced_parser_on, parser_on_cons.
  unfold bind at 1. unfold add_indent at 1.
  cbn [lexer indent current_token].
  unfold bind at 1.
  replace (length more + 6)%nat with (S (S (length more + 4))) by lia.
  rewrite block_skipped
    by (apply check_indent_mismatch; cbn [indent current_token];
        assumption).
  unfold bind, add_indent. cbn [lexer indent current_token].
  unfold ret.
  replace (i + 1 + -1) with i by lia. reflexivity.
Qed.


(** ** Loops *)

(** X21: [while_statement] returns only a loop without a body.  On
    [while], a number, [':'] and a newline, a following token that does
    not open the body one level deeper gives a [While] node with an empty
    [Block], the indentation counter restored; a following indentation
    token of the value of the deeper level opens the body, and the loop
    condition of [block] raises [AttributeError] at the read of
    [tokens.EOF]. *)
Theorem while_statement_body
        (fuel : nat) (i : Z) (kw cond colon nl nxt : Token)
        (rest : list Token) :
  type kw = "while" -> is_number cond = true ->
  type colon = ":" -> ends_expression colon = true ->
  type nl = NEWLINE ->
  (6 <= fuel)%nat ->
  (i + 1 <> 0 ->
   type nxt <> INDENT \/ value nxt <> VInt ((i + 1) * INDENT_LENGTH) ->
   while_statement fuel
     (parser_on i (kw :: cond :: colon :: nl :: nxt :: rest))
   = Ret (While (Num cond) kw (Block [])) (parser_on i (nxt :: rest)))
  /\
  (i + 1 = 0 \/
   (type nxt = INDENT /\ value nxt = VInt ((i + 1) * INDENT_LENGTH)) ->
   while_statement fuel
     (parser_on i (kw :: cond :: colon :: nl :: nxt :: rest))
   = Raise AttributeError).
Proof.
  intros Hk Hn Hc He Hnl Hf.
  assert (W : while_statement 6
                (parser_on i (kw :: cond :: colon :: nl :: nxt :: rest))
              = (right_block <- block 5 ;;
                 add_indent (-1) ;;
                 ret (While (Num cond) kw right_block))
                  (mkParser rest (i + 1) nxt)).
  { rewrite parser_on_cons. cbn [while_statement].
    unfold bind at 1, current. cbn [current_token].
    unfold bind at 1. rewrite eat_ok by exact Hk.
    rewrite advanced_parser_on, parser_on_cons.
    unfold bind at 1. rewrite (@expr_number 1 i cond colon _ Hn He).
    unfold bind at 1. rewrite eat_ok by exact Hc.
    rewrite advanced_parser_on, parser_on_cons.
    unfold bind at 1. rewrite eat_ok by exact Hnl.
    rewrite advanced_parser_on, parser_on_cons.
    unfold bind at 1. unfold add_indent at 1.
    cbn [lexer indent current_token]. reflexivity. }
  split.
  - intros Hi Hm.
    apply while_statement_fuel with (n := 6%nat); [exact Hf |].
    rewrite W. unfold bind at 1.
    rewrite block_skipped
      by (apply check_indent_mismatch; cbn [indent current_token];
          assumption).
    unfold bind, add_indent. cbn [lexer indent current_token].
    unfold ret. replace (i + 1 + -1) with i by lia. reflexivity.
  - intros Hm.
    apply while_statement_fuel_raise with (n := 6%nat); [exact Hf |].
    rewrite W. unfold bind at 1.
    rewrite block_entered
      by (apply check_indent_match; cbn [indent current_token];
          assumption).
    reflexivity.
Qed.

(** ** Blocks in the trees that are returned *)

(** X3: every [Block] node of a tree that is returned is empty, at any
    depth: the tree of a function definition or of a loop holds no
    statement, and [statement] and [block] return [EmptyOp] and the empty
    [Block] with nothing consumed. *)
Theorem returned_blocks_empty (fuel : nat) (p p' : Parser) (a : ast) :
  (function_def fuel p = Ret a p' \/ while_statement fuel p = Ret a p'
   \/ parse fuel p = Ret a p' \/ expr fuel p = Ret a p' ->
   forall children, In (Block children) (nodes a) -> children = [])
  /\
  (statement fuel p = Ret a p' -> a = EmptyOp /\ p' = p)
  /\
  (block fuel p = Ret a p' -> a = Block [] /\ p' = p).
Proof.
  split; [| split].
  - intros H children HIn.
    assert (B : bare a = true).
    { destruct H as [H | [H | [H | H]]].
      - exact (function_def_bare _ _ H).
      - exact (while_statement_bare _ _ H).
      - exact (program_bare _ _ H).
      - exact (expr_bare _ _ H). }
    pose proof (bare_nodes a B _ HIn) as D.
    destruct children; [reflexivity | discriminate D].
  - intros H. apply statement_returns in H. destruct H as (? & ? & _). auto.
  - intros H. apply block_returns in H. destruct H as (? & ? & _). auto.
Qed.

End Parser.

(** * The statements at sample inputs *)

Lemma check_indent_spec_witness :
  check_indent sample_INDENT_LENGTH
    (mkParser [] 2 (indentation 8 3 0)) = true.
Proof.
  apply (proj1 (check_indent_spec sample_INDENT_LENGTH
                  (mkParser [] 2 (indentation 8 3 0)))).
  right. split; reflexivity.
Defined.

Lemma eat_indent_spec_witness :
  eat_indent sample_INDENT_LENGTH sample_end_marker
    (mkParser [identifier "x" 3 8] 2 (indentation 4 3 0))
  = Raise IndentationError
  /\
  eat_indent sample_INDENT_LENGTH sample_end_marker
    (mkParser [identifier "x" 3 8] 2 (indentation 8 3 0))
  = Ret tt (mkParser [] 2 (identifier "x" 3 8))
  /\
  eat_indent sample_INDENT_LENGTH sample_end_marker
    (mkParser [] 0 (identifier "x" 1 0))
  = Ret tt (mkParser [] 0 (identifier "x" 1 0)).
Proof.
  split; [| split].
  - apply (proj1 (eat_indent_spec sample_INDENT_LENGTH sample_end_marker
                    (mkParser [identifier "x" 3 8] 2 (indentation 4 3 0)))).
    + reflexivity.
    + discriminate.
  - apply (proj1 (proj2 (eat_indent_spec sample_INDENT_LENGTH
                           sample_end_marker
                           (mkParser [identifier "x" 3 8] 2
                                     (indentation 8 3 0))))
             eq_refl eq_refl).
  - apply (proj2 (proj2 (eat_indent_spec sample_INDENT_LENGTH
                           sample_end_marker
                           (mkParser [] 0 (identifier "x" 1 0))))).
    discriminate.
Defined.

Lemma iskeyword_spec_witness :
  iskeyword py37_kwlist "while" = KwReturn true
  /\ iskeyword py37_kwlist "async" = KwKeyError "async"
  /\ iskeyword py37_kwlist "foo" = KwReturn false.
Proof.
  split; [| split].
  - apply (proj1 (iskeyword_spec py37_kwlist "while")).
    apply str_mem_In. reflexivity.
  - apply (proj1 (proj2 (iskeyword_spec py37_kwlist "async"))).
    + apply str_mem_not_In. reflexivity.
    + apply str_mem_In. reflexivity.
  - apply (proj2 (proj2 (iskeyword_spec py37_kwlist "foo"))).
    + apply str_mem_not_In. reflexivity.
    + apply str_mem_not_In. reflexivity.
Defined.

Lemma statement_dispatch_witness :
  statement sample_INDENT_LENGTH sample_end_marker 1
    (mkParser [] 0 (identifier "foo" 1 0))
  = Ret EmptyOp (mkParser [] 0 (identifier "foo" 1 0))
  /\
  statement sample_INDENT_LENGTH sample_end_marker 1
    (mkParser [symbol "=" 1 4; number (VInt 1) 1 6; newline 1 7] 0
              (identifier "foo" 1 0))
  = Raise TypeError
  /\
  statement sample_INDENT_LENGTH sample_end_marker 8
    (Parser_init sample_end_marker
       [ identifier "foo" 1 0; symbol "(" 1 3; number (VInt 1) 1 4;
         symbol "," 1 5; number (VInt 2) 1 7; symbol ")" 1 8;
         newline 1 9 ])
  = Raise TypeError.
Proof.
  destruct (statement_dispatch sample_INDENT_LENGTH sample_end_marker)
    as [D E].
  assert (L : (1 <= 8)%nat) by (repeat constructor).
  split; [| split].
  - exact (proj1 (D 0%nat (mkParser [] 0 (identifier "foo" 1 0)) eq_refl)
             eq_refl).
  - exact (proj2 (D 0%nat
                    (mkParser [symbol "=" 1 4; number (VInt 1) 1 6;
                               newline 1 7] 0 (identifier "foo" 1 0))
                    eq_refl)
             (symbol "=" 1 4) eq_refl).
  - exact (proj1 (E 8%nat 1 [] L)).
Defined.

Lemma precedence_witness :
  expr sample_INDENT_LENGTH sample_end_marker 9
    (Parser_init sample_end_marker
       [ number (VInt 1) 1 0; symbol "+" 1 2; number (VInt 2) 1 4;
         symbol "*" 1 6; number (VInt 3) 1 8; newline 1 9 ])
  = Ret (Op (Num (number (VInt 1) 1 0)) (symbol "+" 1 2)
           (Op (Num (number (VInt 2) 1 4)) (symbol "*" 1 6)
               (Num (number (VInt 3) 1 8))))
        (mkParser [] 0 (newline 1 9)).
Proof.
  exact (proj1 (@precedence sample_INDENT_LENGTH sample_end_marker
                  9 1 (newline 1 9) [] eq_refl (le_n 9))).
Defined.

Lemma unary_chaining_witness :
  factor sample_INDENT_LENGTH sample_end_marker 3
    (Parser_init sample_end_marker
       [symbol "-" 1 0; symbol "-" 1 2; number (VInt 3) 1 4; newline 1 5])
  = Ret (UnaryOp (symbol "-" 1 0)
           (UnaryOp (symbol "-" 1 2) (Num (number (VInt 3) 1 4))))
        (mkParser [] 0 (newline 1 5)).
Proof.
  exact (@unary_chaining sample_INDENT_LENGTH sample_end_marker
           3 1 [newline 1 5] (le_n 3)).
Defined.

Lemma if_missing_colon_witness :
  if_statement sample_INDENT_LENGTH sample_end_marker 10
    (Parser_init sample_end_marker if_without_colon_tokens)
  = Raise (PyException (newline 1 4) (Some (VStr ":")))
  /\
  if_statement sample_INDENT_LENGTH sample_end_marker 5
    (Parser_init sample_end_marker [symbol "if" 1 0; identifier "x" 1 3])
  = Raise AttributeError
  /\
  parse sample_INDENT_LENGTH sample_end_marker 5
    (Parser_init sample_end_marker if_without_colon_tokens)
  = Raise AttributeError.
Proof.
  assert (Hc : type (current_token (mkParser [] 0 (newline 1 4))) <> ":")
    by discriminate.
  assert (L : (6 <= 10)%nat) by (repeat constructor).
  destruct (if_missing_colon sample_INDENT_LENGTH sample_end_marker)
    as (H1 & H2 & H3).
  split; [| split].
  - exact (H1 5%nat 10%nat
             (Parser_init sample_end_marker if_without_colon_tokens)
             (mkParser [] 0 (newline 1 4))
             (Num (number (VInt 1) 1 3))
             eq_refl eq_refl Hc L).
  - exact (H2 5%nat 1 (le_n 5)).
  - exact (proj2 (H3 5%nat (le_n 5))).
Defined.

Lemma factor_returns_none_witness :
  factor sample_INDENT_LENGTH sample_end_marker 1
    (mkParser [] 0 sample_end_marker)
  = Ret PyNone (mkParser [] 0 sample_end_marker)
  /\
  assign_statement sample_INDENT_LENGTH sample_end_marker 8
    (Parser_init sample_end_marker
       [identifier "x" 1 0; symbol "=" 1 2; newline 1 3])
  = Ret (Assign (Var (identifier "x" 1 0)) (symbol "=" 1 2) PyNone)
        (mkParser [] 0 sample_end_marker).
Proof.
  destruct (factor_returns_none sample_INDENT_LENGTH sample_end_marker)
    as (_ & F & G).
  split.
  - apply (F 0%nat (mkParser [] 0 sample_end_marker)).
    left. reflexivity.
  - destruct (G 8%nat 1 [] (le_n 8)) as (_ & _ & A & _). exact A.
Defined.


Lemma elif_chain_witness :
  elif_statement sample_INDENT_LENGTH sample_end_marker 1
    (mkParser [symbol ":" 5 4; newline 5 5] 0 (symbol "else" 5 0))
  = Raise AttributeError
  /\
  if_statement sample_INDENT_LENGTH sample_end_marker 8
    (Parser_init sample_end_marker if_elif_else_tokens)
  = Raise AttributeError
  /\
  if_statement sample_INDENT_LENGTH sample_end_marker 8
    (Parser_init sample_end_marker if_elif_else_flat_tokens)
  = Raise AttributeError.
Proof.
  destruct (elif_chain sample_INDENT_LENGTH sample_end_marker)
    as (_ & H2 & H3).
  assert (Hv : value (current_token
                        (mkParser [symbol ":" 5 4; newline 5 5] 0
                                  (symbol "else" 5 0))) <> VStr "elif")
    by discriminate.
  split.
  - exact (H2 0%nat _ Hv).
  - exact (H3 8%nat (le_n 8)).
Defined.

(** * The further statements at sample inputs *)

Lemma successful_call_state_witness :
  exists k,
    mkParser [] 0 sample_end_marker
    = Nat.iter k (advanced sample_end_marker)
        (Parser_init sample_end_marker
           [identifier "x" 1 0; symbol "=" 1 2; number (VInt 1) 1 4;
            newline 1 5]).
Proof.
  apply (proj1 (@successful_call_state sample_INDENT_LENGTH
                  sample_end_marker 8
                  (Parser_init sample_end_marker
                     [identifier "x" 1 0; symbol "=" 1 2;
                      number (VInt 1) 1 4; newline 1 5])
                  (mkParser [] 0 sample_end_marker))
           (Assign (Var (identifier "x" 1 0)) (symbol "=" 1 2)
                   (Num (number (VInt 1) 1 4)))).
  right. right. right. right. right. left. vm_compute. reflexivity.
Defined.

Lemma parse_top_level_witness :
  parse sample_INDENT_LENGTH sample_end_marker 3
    (Parser_init sample_end_marker if_elif_else_tokens)
  = Raise AttributeError
  /\
  parse sample_INDENT_LENGTH sample_end_marker 3
    (Parser_init sample_end_marker [])
  = Raise AttributeError.
Proof.
  destruct (@parse_top_level sample_INDENT_LENGTH sample_end_marker 3
              (le_n 3)) as [H1 H2].
  split.
  - apply H1. reflexivity.
  - apply H2.
Defined.

Lemma returned_blocks_empty_witness :
  function_def sample_INDENT_LENGTH sample_end_marker 8
    (Parser_init sample_end_marker
       [symbol "def" 1 0; identifier "f" 1 4; symbol "(" 1 5;
        symbol ")" 1 6; symbol ":" 1 7; newline 1 8; identifier "x" 2 0])
  = Ret (FunctionDef (Var (identifier "f" 1 4)) [] (Block []))
        (mkParser [] 0 (identifier "x" 2 0))
  /\
  ~ In (Block [EmptyOp])
       (nodes (FunctionDef (Var (identifier "f" 1 4)) [] (Block []))).
Proof.
  assert (R : function_def sample_INDENT_LENGTH sample_end_marker 8
                (Parser_init sample_end_marker
                   [symbol "def" 1 0; identifier "f" 1 4; symbol "(" 1 5;
                    symbol ")" 1 6; symbol ":" 1 7; newline 1 8;
                    identifier "x" 2 0])
              = Ret (FunctionDef (Var (identifier "f" 1 4)) [] (Block []))
                    (mkParser [] 0 (identifier "x" 2 0)))
    by (vm_compute; reflexivity).
  split; [exact R |].
  intros HIn.
  pose proof (proj1 (@returned_blocks_empty sample_INDENT_LENGTH
                       sample_end_marker 8 _ _ _)
                (or_introl R) [EmptyOp] HIn) as E.
  discriminate E.
Defined.

Lemma block_indentation_witness :
  block sample_INDENT_LENGTH sample_end_marker 2
    (mkParser [identifier "x" 3 8] 1 (indentation 8 3 0))
  = Ret (Block []) (mkParser [identifier "x" 3 8] 1 (indentation 8 3 0))
  /\
  block sample_INDENT_LENGTH sample_end_marker 2
    (mkParser [identifier "x" 2 4] 1 (indentation 4 2 0))
  = Raise AttributeError
  /\
  block sample_INDENT_LENGTH sample_end_marker 2
    (mkParser [symbol "=" 1 2] 0 (identifier "x" 1 0))
  = Raise AttributeError.
Proof.
  split; [| split].
  - apply (proj1 (@block_indentation sample_INDENT_LENGTH
                    sample_end_marker 0
                    (mkParser [identifier "x" 3 8] 1 (indentation 8 3 0)))).
    + discriminate.
    + right. discriminate.
  - apply (proj2 (@block_indentation sample_INDENT_LENGTH
                    sample_end_marker 0
                    (mkParser [identifier "x" 2 4] 1 (indentation 4 2 0)))).
    right. split; reflexivity.
  - apply (proj2 (@block_indentation sample_INDENT_LENGTH
                    sample_end_marker 0
                    (mkParser [symbol "=" 1 2] 0 (identifier "x" 1 0)))).
    left. reflexivity.
Defined.

Lemma multiplicative_chain_witness :
  term_mul_div sample_INDENT_LENGTH sample_end_marker 4
    (Parser_init sample_end_marker
       [number (VInt 1) 1 0; symbol "*" 1 2; number (VInt 2) 1 4;
        symbol "/" 1 6; number (VInt 3) 1 8; newline 1 9])
  = Ret (Op (Op (Num (number (VInt 1) 1 0)) (symbol "*" 1 2)
                (Num (number (VInt 2) 1 4)))
            (symbol "/" 1 6) (Num (number (VInt 3) 1 8)))
        (mkParser [] 0 (newline 1 9)).
Proof.
  apply (@multiplicative_chain sample_INDENT_LENGTH
           sample_end_marker 4 0 (number (VInt 1) 1 0)
           [(symbol "*" 1 2, number (VInt 2) 1 4);
            (symbol "/" 1 6, number (VInt 3) 1 8)]
           (newline 1 9) []).
  - reflexivity.
  - repeat (constructor; [split; reflexivity |]). constructor.
  - reflexivity.
  - apply le_n.
Defined.

Lemma additive_chain_witness :
  term_plus_minus sample_INDENT_LENGTH sample_end_marker 5
    (Parser_init sample_end_marker
       [number (VInt 1) 1 0; symbol "-" 1 2; number (VInt 2) 1 4;
        mkToken OPERATOR (VStr "+") 1 6; number (VInt 3) 1 8; newline 1 9])
  = Ret (Op (Op (Num (number (VInt 1) 1 0)) (symbol "-" 1 2)
                (Num (number (VInt 2) 1 4)))
            (mkToken OPERATOR (VStr "+") 1 6) (Num (number (VInt 3) 1 8)))
        (mkParser [] 0 (newline 1 9)).
Proof.
  apply (@additive_chain sample_INDENT_LENGTH
           sample_end_marker 5 0 (number (VInt 1) 1 0)
           [(symbol "-" 1 2, number (VInt 2) 1 4);
            (mkToken OPERATOR (VStr "+") 1 6, number (VInt 3) 1 8)]
           (newline 1 9) []).
  - reflexivity.
  - repeat (constructor; [split; reflexivity |]). constructor.
  - reflexivity.
  - apply le_n.
Defined.

Lemma comparison_chain_witness :
  expr sample_INDENT_LENGTH sample_end_marker 6
    (Parser_init sample_end_marker
       [number (VInt 2) 1 0; symbol "**" 1 2; number (VInt 3) 1 5;
        symbol "<" 1 7; number (VInt 9) 1 9; newline 1 10])
  = Ret (Op (Op (Num (number (VInt 2) 1 0)) (symbol "**" 1 2)
                (Num (number (VInt 3) 1 5)))
            (symbol "<" 1 7) (Num (number (VInt 9) 1 9)))
        (mkParser [] 0 (newline 1 10)).
Proof.
  apply (@comparison_chain sample_INDENT_LENGTH
           sample_end_marker 6 0 (number (VInt 2) 1 0)
           [(symbol "**" 1 2, number (VInt 3) 1 5);
            (symbol "<" 1 7, number (VInt 9) 1 9)]
           (newline 1 10) []).
  - reflexivity.
  - repeat (constructor; [split; reflexivity |]). constructor.
  - reflexivity.
  - apply le_n.
Defined.

Lemma unary_chain_witness :
  factor sample_INDENT_LENGTH sample_end_marker 4
    (Parser_init sample_end_marker
       [symbol "-" 1 0; symbol "+" 1 1; symbol "-" 1 2;
        number (VInt 3) 1 3; newline 1 4])
  = Ret (UnaryOp (symbol "-" 1 0)
           (UnaryOp (symbol "+" 1 1)
              (UnaryOp (symbol "-" 1 2) (Num (number (VInt 3) 1 3)))))
        (mkParser [] 0 (newline 1 4)).
Proof.
  apply (@unary_chain sample_INDENT_LENGTH sample_end_marker 4 0
           [symbol "-" 1 0; symbol "+" 1 1; symbol "-" 1 2]
           (number (VInt 3) 1 3) [newline 1 4]).
  - repeat (constructor; [reflexivity |]). constructor.
  - reflexivity.
  - apply le_n.
Defined.

Lemma argument_list_order_witness :
  argument_list sample_INDENT_LENGTH sample_end_marker 8
    (Parser_init sample_end_marker
       [symbol "(" 1 3; number (VInt 1) 1 4; symbol "," 1 5;
        number (VInt 2) 1 7; symbol "," 1 8; number (VInt 3) 1 10;
        symbol ")" 1 11; newline 1 12])
  = Ret [Num (number (VInt 1) 1 4); Num (number (VInt 2) 1 7);
         Num (number (VInt 3) 1 10)]
        (mkParser [] 0 (newline 1 12)).
Proof.
  apply (proj1 (@argument_list_order sample_INDENT_LENGTH
                  sample_end_marker 8 0 (symbol "(" 1 3)
                  (number (VInt 1) 1 4)
                  [(symbol "," 1 5, number (VInt 2) 1 7);
                   (symbol "," 1 8, number (VInt 3) 1 10)]
                  (symbol ")" 1 11) [newline 1 12]
                  eq_refl eq_refl eq_refl (le_n 8))).
  - reflexivity.
  - discriminate.
  - repeat (constructor; [split; reflexivity |]). constructor.
Defined.

Lemma identifier_at_end_of_input_witness :
  assign_statement sample_INDENT_LENGTH sample_end_marker 5
    (Parser_init sample_end_marker
       [identifier "y" 1 0; symbol "=" 1 2; identifier "x" 1 4])
  = Raise AttributeError.
Proof.
  apply (proj2 (proj2 (@identifier_at_end_of_input sample_INDENT_LENGTH
                         sample_end_marker 5 0
                         (identifier "x" 1 4) eq_refl))
           (identifier "y" 1 0) (symbol "=" 1 2)
           eq_refl eq_refl (le_n 5)).
Defined.

Lemma int_valued_token_witness :
  expr sample_INDENT_LENGTH sample_end_marker 4
    (Parser_init sample_end_marker
       [number (VInt 1) 1 0; indentation 4 2 0])
  = Raise TypeError.
Proof.
  apply (proj2 (proj1 (@int_valued_token sample_INDENT_LENGTH
                         sample_end_marker 4 0 (number (VInt 1) 1 0)
                         (indentation 4 2 0) [] 4 eq_refl)
                  eq_refl)
           (le_n 4)).
Defined.

Lemma operator_type_mismatch_witness :
  term_mul_div sample_INDENT_LENGTH sample_end_marker 2
    (Parser_init sample_end_marker
       [number (VInt 1) 1 0; mkToken OPERATOR (VStr "*") 1 2;
        number (VInt 2) 1 4])
  = Raise (PyException (mkToken OPERATOR (VStr "*") 1 2)
                       (Some (VStr "*"))).
Proof.
  assert (Ht : type (mkToken OPERATOR (VStr "*") 1 2) <> "*")
    by discriminate.
  assert (Hs : "*" <> "") by discriminate.
  apply (proj1 (@operator_type_mismatch sample_INDENT_LENGTH
                  sample_end_marker 2 0 (number (VInt 1) 1 0)
                  (mkToken OPERATOR (VStr "*") 1 2)
                  [number (VInt 2) 1 4] "*" eq_refl eq_refl Ht Hs)
           eq_refl (le_n 2)).
Defined.

Lemma statement_outcomes_witness :
  statement sample_INDENT_LENGTH sample_end_marker 1
    (mkParser [number (VInt 1) 1 6; symbol ":" 1 7; newline 1 8] 0
              (symbol "while" 1 0))
  = Raise AttributeError.
Proof.
  apply (proj1 (@statement_outcomes sample_INDENT_LENGTH sample_end_marker
                  0 (mkParser [number (VInt 1) 1 6; symbol ":" 1 7;
                               newline 1 8] 0 (symbol "while" 1 0)))).
  discriminate.
Defined.

Lemma iskeyword_never_raises_witness :
  (forall s, exists b, iskeyword keywords s = KwReturn b)
  /\ ~ (forall s, exists b, iskeyword py37_kwlist s = KwReturn b).
Proof.
  split.
  - apply (proj2 (proj2 (iskeyword_never_raises keywords))).
    apply incl_refl.
  - intros H.
    apply (proj1 (proj2 (iskeyword_never_raises py37_kwlist))) in H.
    assert (A : In "async" keywords)
      by (apply H; apply str_mem_In; reflexivity).
    apply str_mem_In in A. discriminate.
Defined.

Lemma function_def_literal_parameters_witness :
  function_def sample_INDENT_LENGTH sample_end_marker 8
    (Parser_init sample_end_marker
       [symbol "def" 1 0; identifier "f" 1 4; symbol "(" 1 5;
        number (VInt 1) 1 6; symbol "," 1 7; number (VInt 2) 1 9;
        symbol ")" 1 10; symbol ":" 1 11; newline 1 12;
        sample_end_marker])
  = Ret (FunctionDef (Var (identifier "f" 1 4))
           [Num (number (VInt 1) 1 6); Num (number (VInt 2) 1 9)]
           (Block []))
        (mkParser [] 0 sample_end_marker).
Proof.
  apply (@function_def_literal_parameters sample_INDENT_LENGTH
           sample_end_marker 8 0 (symbol "def" 1 0) (identifier "f" 1 4)
           (symbol "(" 1 5) (number (VInt 1) 1 6)
           [(symbol "," 1 7, number (VInt 2) 1 9)]
           (symbol ")" 1 10) (symbol ":" 1 11) (newline 1 12)
           sample_end_marker []).
  - reflexivity.
  - reflexivity.
  - reflexivity.
  - reflexivity.
  - discriminate.
  - repeat (constructor; [split; reflexivity |]). constructor.
  - reflexivity.
  - reflexivity.
  - reflexivity.
  - reflexivity.
  - discriminate.
  - left. discriminate.
  - apply le_n.
Defined.

Lemma while_statement_body_witness :
  while_statement sample_INDENT_LENGTH sample_end_marker 6
    (Parser_init sample_end_marker
       [symbol "while" 1 0; number (VInt 1) 1 6; symbol ":" 1 7;
        newline 1 8; identifier "x" 2 0])
  = Ret (While (Num (number (VInt 1) 1 6)) (symbol "while" 1 0) (Block []))
        (mkParser [] 0 (identifier "x" 2 0))
  /\
  while_statement sample_INDENT_LENGTH sample_end_marker 6
    (Parser_init sample_end_marker
       [symbol "while" 1 0; number (VInt 1) 1 6; symbol ":" 1 7;
        newline 1 8; indentation 4 2 0; identifier "x" 2 4;
        symbol "=" 2 6; number (VInt 1) 2 8; newline 2 9])
  = Raise AttributeError.
Proof.
  split.
  - apply (proj1 (@while_statement_body sample_INDENT_LENGTH
                    sample_end_marker 6 0 (symbol "while" 1 0)
                    (number (VInt 1) 1 6) (symbol ":" 1 7) (newline 1 8)
                    (identifier "x" 2 0) []
                    eq_refl eq_refl eq_refl eq_refl eq_refl (le_n 6))).
    + discriminate.
    + left. discriminate.
  - apply (proj2 (@while_statement_body sample_INDENT_LENGTH
                    sample_end_marker 6 0 (symbol "while" 1 0)
                    (number (VInt 1) 1 6) (symbol ":" 1 7) (newline 1 8)
                    (indentation 4 2 0)
                    [identifier "x" 2 4; symbol "=" 2 6;
                     number (VInt 1) 2 8; newline 2 9]
                    eq_refl eq_refl eq_refl eq_refl eq_refl (le_n 6))).
    right. split; reflexivity.
Defined.
